(** * GST reconciliation engine: a shallow embedding of [reconciliationUtils]

    The development embeds the matching engine [performReconciliation] and the
    header heuristic [suggestColumnMappings], together with the one line of
    [ReconciliationOptions.tsx] that gates the Reconcile button, and states the
    properties of the specification over them.

    Modelling choices, all taken from the TypeScript source:
    - a JS number is an IEEE-754 binary64 value: Rocq's primitive [float];
    - a JS object used as a dictionary ([Record<string, any>]) is the list of
      its own properties in enumeration order; a dataset row also carries its
      heap identity, because [Array.prototype.indexOf] compares references;
    - [Set<number>] is a [gset Z] ([indexOf] may return [-1]);
    - [forEach] over an array is a left fold whose state is the set of
      variables the callback mutates; [push] appends at the end;
    - the fuzzy-search library (Fuse.js) and the host functions
      [Number::toString], [Date::toString] and [String.prototype.toLowerCase]
      are not part of the repository: they are section variables, and nothing
      is assumed about them unless a statement says so. The search is a
      pure total function of the index options, the indexed rows and the
      pattern: an exception raised inside the library has no counterpart
      here. *)

From Stdlib Require Import Floats ZArith String Ascii List Bool Lia DecimalString.
From stdpp Require Import gmap strings.
Import ListNotations.

Set Warnings "-inexact-float".

Local Open Scope string_scope.
Local Open Scope list_scope.

(** ** JavaScript values held in a cell *)

Inductive Value : Type :=
| VUndefined
| VNull
| VBoolean (b : bool)
| VNumber (x : float)
| VString (s : string)
| VDate (t : float).

(** [typeof v] *)
Definition typeof (v : Value) : string :=
  match v with
  | VUndefined => "undefined"
  | VNull => "object"
  | VBoolean _ => "boolean"
  | VNumber _ => "number"
  | VString _ => "string"
  | VDate _ => "object"
  end.

(** Truthiness of a string: only the empty string is falsy. *)
Definition truthy (s : string) : bool :=
  match s with
  | EmptyString => false
  | String _ _ => true
  end.

(** ** Objects used as dictionaries *)

(** Own properties in enumeration order. *)
Definition Dict (A : Type) : Type := list (string * A).

Fixpoint getOwn {A : Type} (o : Dict A) (k : string) : option A :=
  match o with
  | [] => None
  | (k', v) :: rest => if String.eqb k' k then Some v else getOwn rest k
  end.

(** [o[k] = v]: overwrite in place when [k] is present, else append. *)
Fixpoint setProp {A : Type} (o : Dict A) (k : string) (v : A) : Dict A :=
  match o with
  | [] => [(k, v)]
  | (k', v') :: rest =>
      if String.eqb k' k then (k', v) :: rest else (k', v') :: setProp rest k v
  end.

(** [Object.entries(o)] *)
Definition Object_entries {A : Type} (o : Dict A) : list (string * A) := o.

(** A dataset row: a dictionary of cells living at heap address [oid]. *)
Record JsRecord : Type := mkRecord {
  oid : nat;
  props : Dict Value
}.

(** [row[k]]: a missing property reads as [undefined]. *)
Definition get (row : JsRecord) (k : string) : Value :=
  match getOwn (props row) k with
  | Some v => v
  | None => VUndefined
  end.

(** [arr.includes(x)] on an array of strings. *)
Definition Array_includes (arr : list string) (x : string) : bool :=
  existsb (String.eqb x) arr.

(** [arr.indexOf(row)]: first position holding the same reference, or [-1]. *)
Fixpoint indexOfFrom (arr : list JsRecord) (row : JsRecord) (i : Z) : Z :=
  match arr with
  | [] => (-1)%Z
  | r :: rest =>
      if Nat.eqb (oid r) (oid row) then i else indexOfFrom rest row (i + 1)%Z
  end.

Definition indexOf (arr : list JsRecord) (row : JsRecord) : Z :=
  indexOfFrom arr row 0%Z.

(** [s.includes(sub)]: [sub] occurs in [s] as a contiguous substring. *)
Fixpoint String_includes (s sub : string) : bool :=
  String.prefix sub s ||
  match s with
  | EmptyString => false
  | String _ rest => String_includes rest sub
  end.

(** ** The interface of the fuzzy-search library *)

Record FuseOptions : Type := mkFuseOptions {
  includeScore : bool;
  threshold : float;
  keys : list string
}.

(** One element of [fuse.search(...)]; [score] is optional in the typings. *)
Record FuseResult : Type := mkFuseResult {
  item : JsRecord;
  refIndex : nat;
  score : option float
}.

(** [new Fuse(docs, options).search(pattern)] *)
Definition FuseSearch : Type :=
  FuseOptions -> list JsRecord -> Dict string -> list FuseResult.

(** [x <= c] where [x] may be [undefined]: [undefined] converts to NaN, and
    every comparison with NaN is false. *)
Definition js_le (x : option float) (c : float) : bool :=
  match x with
  | Some s => PrimFloat.leb s c
  | None => false
  end.

(** ** The result types of [reconciliationUtils] *)

Record Mismatch : Type := mkMismatch {
  field : string;
  gstr2bValue : Value;
  purchaseRegisterValue : Value
}.

Record CommonEntry : Type := mkCommon {
  gstr2b : JsRecord;
  purchaseRegister : JsRecord;
  mismatches : list Mismatch
}.

Record MatchResult : Type := mkMatchResult {
  common : list CommonEntry;
  moreInGstr2b : list JsRecord;
  lessInGstr2b : list JsRecord
}.

Record ReconciliationOptions : Type := mkOptions {
  matchingThreshold : float;
  keyFields : list string;
  mappedFields : Dict string
}.

(** ** [performReconciliation] *)

Section Engine.

(** Host conversions and the search library. *)
Variable numberToString : float -> string.
Variable dateToString : float -> string.
Variable search : FuseSearch.

(** [String(v)], which is also [v.toString()] where the latter exists. *)
Definition ToString (v : Value) : string :=
  match v with
  | VUndefined => "undefined"
  | VNull => "null"
  | VBoolean true => "true"
  | VBoolean false => "false"
  | VNumber x => numberToString x
  | VString s => s
  | VDate t => dateToString t
  end.

(** [v?.toString()]: [None] stands for [undefined]. *)
Definition optToString (v : Value) : option string :=
  match v with
  | VUndefined | VNull => None
  | _ => Some (ToString v)
  end.

(** [v?.toString() || ''] *)
Definition toStringOrEmpty (v : Value) : string :=
  match optToString v with
  | Some s => if truthy s then s else ""
  | None => ""
  end.

(** [1 - matchingThreshold / 100] *)
Definition scoreCeiling (options : ReconciliationOptions) : float :=
  (1 - matchingThreshold options / 100)%float.

(** [fuseOptions]; [keyFields.map(field => field)] is [keyFields]. *)
Definition fuseOptions (options : ReconciliationOptions) : FuseOptions :=
  {| includeScore := true;
     threshold := scoreCeiling options;
     keys := map (fun field => field) (keyFields options) |}.

(** The object built by the inner [keyFields.forEach]. *)
Definition searchPattern (options : ReconciliationOptions)
    (gstr2bEntry : JsRecord) : Dict string :=
  fold_left
    (fun pattern keyField =>
       setProp pattern keyField (toStringOrEmpty (get gstr2bEntry keyField)))
    (keyFields options) [].

(** The numeric test: [Math.abs(a - b) > Math.abs(a) * 0.001]. *)
Definition exceedsTolerance (a b : float) : bool :=
  let tolerance := (PrimFloat.abs a * 0.001)%float in
  PrimFloat.ltb tolerance (PrimFloat.abs (a - b)).

(** Body of [Object.entries(mappedFields).forEach]; the state is the array
    [mismatches]. The [typeof ... === 'number'] guards select [VNumber]. *)
Definition compareField (options : ReconciliationOptions)
    (gstr2bEntry bestMatch : JsRecord)
    (acc : list Mismatch) (entry : string * string) : list Mismatch :=
  let '(gstr2bField, prField) := entry in
  if Array_includes (keyFields options) gstr2bField then acc
  else
    let gstr2bValue := get gstr2bEntry gstr2bField in
    let prValue := get bestMatch prField in
    let found := {| field := gstr2bField;
                    gstr2bValue := gstr2bValue;
                    purchaseRegisterValue := prValue |} in
    match gstr2bValue, prValue with
    | VNumber a, VNumber b =>
        if exceedsTolerance a b then acc ++ [found] else acc
    | _, _ =>
        if String.eqb (ToString gstr2bValue) (ToString prValue)
        then acc else acc ++ [found]
    end.

Definition findMismatches (options : ReconciliationOptions)
    (gstr2bEntry bestMatch : JsRecord) : list Mismatch :=
  fold_left (compareField options gstr2bEntry bestMatch)
    (Object_entries (mappedFields options)) [].

(** What the outer [gstr2bData.forEach] mutates. *)
Record LoopState : Type := mkLoop {
  st_common : list CommonEntry;
  st_moreInGstr2b : list JsRecord;
  matchedPurchaseIndices : gset Z
}.

Definition initialState : LoopState :=
  {| st_common := []; st_moreInGstr2b := []; matchedPurchaseIndices := ∅ |}.

Definition noMatch (st : LoopState) (gstr2bEntry : JsRecord) : LoopState :=
  {| st_common := st_common st;
     st_moreInGstr2b := st_moreInGstr2b st ++ [gstr2bEntry];
     matchedPurchaseIndices := matchedPurchaseIndices st |}.

(** Body of [gstr2bData.forEach]. *)
Definition processEntry (purchaseRegisterData : list JsRecord)
    (options : ReconciliationOptions)
    (st : LoopState) (gstr2bEntry : JsRecord) : LoopState :=
  let results :=
    search (fuseOptions options) purchaseRegisterData
      (searchPattern options gstr2bEntry) in
  match results with
  | first :: _ =>
      if js_le (score first) (scoreCeiling options) then
        let bestMatch := item first in
        let bestMatchIndex := indexOf purchaseRegisterData bestMatch in
        {| st_common :=
             st_common st ++
               [{| gstr2b := gstr2bEntry;
                   purchaseRegister := bestMatch;
                   mismatches :=
                     findMismatches options gstr2bEntry bestMatch |}];
           st_moreInGstr2b := st_moreInGstr2b st;
           matchedPurchaseIndices :=
             {[ bestMatchIndex ]} ∪ matchedPurchaseIndices st |}
      else noMatch st gstr2bEntry
  | [] => noMatch st gstr2bEntry
  end.

(** Body of [purchaseRegisterData.forEach((prEntry, index) => ...)]. *)
Fixpoint collectUnmatched (matched : gset Z) (index : nat)
    (rows : list JsRecord) (acc : list JsRecord) : list JsRecord :=
  match rows with
  | [] => acc
  | prEntry :: rest =>
      collectUnmatched matched (S index) rest
        (if bool_decide (Z.of_nat index ∈ matched) then acc
         else acc ++ [prEntry])
  end.

Definition performReconciliation (gstr2bData purchaseRegisterData : list JsRecord)
    (options : ReconciliationOptions) : MatchResult :=
  let st :=
    fold_left (processEntry purchaseRegisterData options)
      gstr2bData initialState in
  {| common := st_common st;
     moreInGstr2b := st_moreInGstr2b st;
     lessInGstr2b :=
       collectUnmatched (matchedPurchaseIndices st) 0 purchaseRegisterData [] |}.

(** The pair that an entry contributes to [common], if any: the [then]
    branch of [processEntry] read as a function of the entry alone. It is
    used to state what the loop computes. *)
Definition matchFor (purchaseRegisterData : list JsRecord)
    (options : ReconciliationOptions) (gstr2bEntry : JsRecord)
    : option CommonEntry :=
  match search (fuseOptions options) purchaseRegisterData
          (searchPattern options gstr2bEntry) with
  | first :: _ =>
      if js_le (score first) (scoreCeiling options) then
        Some {| gstr2b := gstr2bEntry;
                purchaseRegister := item first;
                mismatches := findMismatches options gstr2bEntry (item first) |}
      else None
  | [] => None
  end.

(** The pairs contributed by a list of entries, and the entries that
    contribute one. *)
Definition pairsOf (purchaseRegisterData : list JsRecord)
    (options : ReconciliationOptions) (gstr2bData : list JsRecord)
    : list CommonEntry :=
  omap (matchFor purchaseRegisterData options) gstr2bData.

Definition paired (purchaseRegisterData : list JsRecord)
    (options : ReconciliationOptions) (gstr2bEntry : JsRecord) : bool :=
  match matchFor purchaseRegisterData options gstr2bEntry with
  | Some _ => true
  | None => false
  end.

(** The positions of the target dataset that the pairs consume. *)
Definition consumed (purchaseRegisterData : list JsRecord)
    (pairs : list CommonEntry) : gset Z :=
  list_to_set
    (map (fun p => indexOf purchaseRegisterData (purchaseRegister p)) pairs).

(** The comparison policy on two cells: the two branches of [compareField]. *)
Definition valuesDiffer (sourceValue targetValue : Value) : bool :=
  match sourceValue, targetValue with
  | VNumber a, VNumber b => exceedsTolerance a b
  | _, _ => negb (String.eqb (ToString sourceValue) (ToString targetValue))
  end.

(** Positions of [rows], counted from [index], that are in [matched]. *)
Fixpoint consumedIn (matched : gset Z) (index : nat) (rows : list JsRecord)
    : nat :=
  match rows with
  | [] => 0
  | _ :: rest =>
      (if bool_decide (Z.of_nat index ∈ matched) then 1 else 0)
      + consumedIn matched (S index) rest
  end.

(** The rows of [rows] at positions outside [matched], in order. *)
Fixpoint unconsumed (matched : gset Z) (index : nat) (rows : list JsRecord)
    : list JsRecord :=
  match rows with
  | [] => []
  | row :: rest =>
      if bool_decide (Z.of_nat index ∈ matched)
      then unconsumed matched (S index) rest
      else row :: unconsumed matched (S index) rest
  end.

End Engine.

(** ** [suggestColumnMappings] *)

Record KeywordSet : Type := mkKeywordSet {
  gstr : list string;
  pr : list string
}.

Definition commonKeywords : list KeywordSet :=
  [ {| gstr := ["gstin"; "gst"]; pr := ["gstin"; "gst"] |};
    {| gstr := ["invoice"; "bill"]; pr := ["invoice"; "bill"] |};
    {| gstr := ["date"]; pr := ["date"] |};
    {| gstr := ["taxable"; "value"]; pr := ["taxable"; "value"] |};
    {| gstr := ["amount"; "total"]; pr := ["amount"; "total"] |};
    {| gstr := ["igst"]; pr := ["igst"] |};
    {| gstr := ["cgst"]; pr := ["cgst"] |};
    {| gstr := ["sgst"]; pr := ["sgst"] |};
    {| gstr := ["supplier"; "vendor"]; pr := ["supplier"; "vendor"] |};
    {| gstr := ["party"]; pr := ["party"] |} ].

Section Suggest.

Variable toLowerCase : string -> string.

(** [keywords.some(keyword => lower.includes(keyword.toLowerCase()))] *)
Definition containsKeyword (lower : string) (keywords : list string) : bool :=
  existsb (fun keyword => String_includes lower (toLowerCase keyword)) keywords.

(** [purchaseRegisterHeaders.find(prHeader => ...)] *)
Definition findPrHeader (purchaseRegisterHeaders : list string)
    (keywordSet : KeywordSet) : option string :=
  List.find
    (fun prHeader =>
       let lowerPrHeader := toLowerCase prHeader in
       containsKeyword lowerPrHeader (pr keywordSet))
    purchaseRegisterHeaders.

(** The [for ... of commonKeywords] loop for one header: [Some h] when the
    loop assigns [h] and breaks, [None] when it runs to the end.
    [if (matchingPrHeader)] tests that a header was found and is truthy. *)
Fixpoint scanKeywordSets (lowerHeader : string)
    (purchaseRegisterHeaders : list string)
    (sets : list KeywordSet) : option string :=
  match sets with
  | [] => None
  | keywordSet :: rest =>
      let matchesGstr := containsKeyword lowerHeader (gstr keywordSet) in
      if matchesGstr then
        match findPrHeader purchaseRegisterHeaders keywordSet with
        | Some matchingPrHeader =>
            if truthy matchingPrHeader then Some matchingPrHeader
            else scanKeywordSets lowerHeader purchaseRegisterHeaders rest
        | None => scanKeywordSets lowerHeader purchaseRegisterHeaders rest
        end
      else scanKeywordSets lowerHeader purchaseRegisterHeaders rest
  end.

(** Body of [gstr2bHeaders.forEach]; the state is the object [mappings]. *)
Definition suggestForHeader (purchaseRegisterHeaders : list string)
    (mappings : Dict string) (gstrHeader : string) : Dict string :=
  let lowerHeader := toLowerCase gstrHeader in
  match scanKeywordSets lowerHeader purchaseRegisterHeaders commonKeywords with
  | Some matchingPrHeader => setProp mappings gstrHeader matchingPrHeader
  | None => mappings
  end.

Definition suggestColumnMappings
    (gstr2bHeaders purchaseRegisterHeaders : list string) : Dict string :=
  fold_left (suggestForHeader purchaseRegisterHeaders) gstr2bHeaders [].

(** Vocabulary for stating what the loop computes. [sub] occurs in [s]: *)
Definition occursIn (sub s : string) : Prop :=
  exists a b, s = (a ++ sub ++ b)%string.

(** The header contains one of the keywords, case-insensitively. *)
Definition mentions (header : string) (keywords : list string) : Prop :=
  exists keyword,
    In keyword keywords /\ occursIn (toLowerCase keyword) (toLowerCase header).

(** [x] is the first element of [l], in the order of [l], that satisfies [P]. *)
Definition firstSuch {A : Type} (P : A -> Prop) (l : list A) (x : A) : Prop :=
  exists before after,
    l = before ++ x :: after /\ P x /\ forall y, In y before -> ~ P y.

End Suggest.

(** ** The Reconcile button of [ReconciliationOptions.tsx] and its caller *)

(** [canReconcile] of the page component. *)
Definition canReconcile (gstr2bData purchaseRegisterData : list JsRecord)
    (keyFields : list string) (columnMappings : Dict string) : bool :=
  (0 <? length gstr2bData)%nat && (0 <? length purchaseRegisterData)%nat &&
  (0 <? length keyFields)%nat && (0 <? length (map fst columnMappings))%nat.

(** The button's [disabled] attribute: [isDisabled || keyFields.length === 0]. *)
Definition reconcileDisabled (isDisabled : bool) (keyFields : list string) : bool :=
  isDisabled || (length keyFields =? 0)%nat.

(** ** What the specification says the index is keyed on *)

(** The specification's wording of the index scope: every key field
    translated through the field mapping to its target-side name
    ([mappedFields[k]], [None] when [k] is unmapped). *)
Definition translatedKeyFields (options : ReconciliationOptions)
    : list (option string) :=
  map (fun k => getOwn (mappedFields options) k) (keyFields options).

(** ** Concrete hosts, to run the engine on examples *)

Module Host.

(** Decimal rendering of a whole number. *)
Definition showWhole (n : Z) : string :=
  DecimalString.NilZero.string_of_int (Z.to_int n).

(** A rendering of numbers that agrees with [Number::toString] on whole
    numbers below [2^53]; a fraction is shown as mantissa and binary
    exponent. It only serves to instantiate the engine on examples. *)
Definition showNumber (x : float) : string :=
  match Prim2SF x with
  | S754_zero _ => "0"
  | S754_infinity false => "Infinity"
  | S754_infinity true => "-Infinity"
  | S754_nan => "NaN"
  | S754_finite s m e =>
      let mag :=
        if (0 <=? e)%Z then showWhole (Z.pos m * 2 ^ e)
        else if (Z.pos m mod 2 ^ (- e) =? 0)%Z
             then showWhole (Z.pos m / 2 ^ (- e))
             else showWhole (Z.pos m) +:+ "p" +:+ showWhole e in
      if s then "-" +:+ mag else mag
  end.

Definition showDate (t : float) : string := "Date(" +:+ showNumber t +:+ ")".

(** ASCII lower-casing, which is [toLowerCase] on ASCII headers. *)
Definition lowerAscii (c : ascii) : ascii :=
  let n := nat_of_ascii c in
  if (65 <=? n)%nat && (n <=? 90)%nat then ascii_of_nat (n + 32) else c.

Fixpoint lowerCase (s : string) : string :=
  match s with
  | EmptyString => EmptyString
  | String c rest => String (lowerAscii c) (lowerCase rest)
  end.

(** An exact searcher with the library's interface: a document is a
    candidate when it has a value under every queried key; its score is [0]
    when each of these values prints as the queried text and [1] otherwise;
    candidates above [threshold] are dropped and the rest is returned by
    ascending score, ties in document order. *)
Definition keyAgrees (doc : JsRecord) (q : string * string) : option bool :=
  match optToString showNumber showDate (get doc (fst q)) with
  | Some text => Some (String.eqb text (snd q))
  | None => None
  end.

Fixpoint docScore (doc : JsRecord) (pattern : Dict string) : option float :=
  match pattern with
  | [] => Some 0%float
  | q :: rest =>
      match keyAgrees doc q, docScore doc rest with
      | Some true, Some s => Some s
      | Some false, Some _ => Some 1%float
      | _, _ => None
      end
  end.

Fixpoint scoreDocs (docs : list JsRecord) (pattern : Dict string) (i : nat)
    : list FuseResult :=
  match docs with
  | [] => []
  | doc :: rest =>
      match docScore doc pattern with
      | Some s =>
          {| item := doc; refIndex := i; score := Some s |}
            :: scoreDocs rest pattern (S i)
      | None => scoreDocs rest pattern (S i)
      end
  end.

Definition exactSearch : FuseSearch :=
  fun options docs pattern =>
    let scored :=
      List.filter (fun r => js_le (score r) (threshold options))
        (scoreDocs docs pattern 0) in
    (List.filter (fun r => js_le (score r) 0%float) scored ++
     List.filter (fun r => negb (js_le (score r) 0%float)) scored)%list.

Definition reconcile : list JsRecord -> list JsRecord ->
    ReconciliationOptions -> MatchResult :=
  performReconciliation showNumber showDate exactSearch.

End Host.

(** ** The data of the specification's end-to-end scenario *)

Module Scenario.

Definition sourceRow : JsRecord :=
  {| oid := 1;
     props := [("invoice", VString "INV-001");
               ("gstin", VString "29ABCDE1234F1Z5");
               ("amount", VNumber 1000%float)] |}.

Definition targetRow : JsRecord :=
  {| oid := 2;
     props := [("inv_no", VString "INV-001");
               ("gst", VString "29ABCDE1234F1Z5");
               ("amt", VNumber 1000.5%float)] |}.

Definition options : ReconciliationOptions :=
  {| matchingThreshold := 90%float;
     keyFields := ["invoice"; "gstin"];
     mappedFields := [("invoice", "inv_no"); ("gstin", "gst"); ("amount", "amt")] |}.

(** Two statement lines quoting one invoice number, one ledger line. *)
Definition twin (n : nat) : JsRecord :=
  {| oid := n;
     props := [("invoice", VString "INV-001"); ("amount", VNumber 1000%float)] |}.

Definition ledgerRow : JsRecord :=
  {| oid := 7;
     props := [("invoice", VString "INV-001"); ("amount", VNumber 1000%float)] |}.

(** The ledger line with the amount of the specification's mismatch
    scenario. *)
Definition ledgerRow1200 : JsRecord :=
  {| oid := 8;
     props := [("invoice", VString "INV-001"); ("amount", VNumber 1200%float)] |}.

Definition sameNames : ReconciliationOptions :=
  {| matchingThreshold := 90%float;
     keyFields := ["invoice"];
     mappedFields := [("invoice", "invoice"); ("amount", "amount")] |}.

End Scenario.

(** ** [generateMismatchSummary], the results table and the export row *)

(** [parts.join(sep)] on an array of strings. *)
Fixpoint join (sep : string) (parts : list string) : string :=
  match parts with
  | [] => ""
  | part :: rest =>
      match rest with
      | [] => part
      | _ :: _ => part +:+ sep +:+ join sep rest
      end
  end.

Section Rendering.

Variable numberToString : float -> string.
Variable dateToString : float -> string.

(** A template literal prints a cell as [String] does. *)
Definition generateMismatchSummary (mismatches : list Mismatch) : string :=
  if (length mismatches =? 0)%nat then "No mismatches"
  else
    join "; "
      (map (fun mismatch =>
              field mismatch +:+ " mismatch: " +:+
              ToString numberToString dateToString (gstr2bValue mismatch) +:+
              " vs " +:+
              ToString numberToString dateToString
                (purchaseRegisterValue mismatch))
         mismatches).

(** The results table of [ReconciliationResults.tsx]: the count of the
    mismatch card, the status badge and the summary cell of a row. *)
Definition getTotalMismatchCount (common : list CommonEntry) : nat :=
  length (List.filter (fun entry => (0 <? length (mismatches entry))%nat) common).

Definition statusBadge (entry : CommonEntry) : string :=
  if (0 <? length (mismatches entry))%nat then "Mismatch" else "Matched".

Definition summaryCell (entry : CommonEntry) : string :=
  if (0 <? length (mismatches entry))%nat
  then generateMismatchSummary (mismatches entry)
  else "All fields match".

(** [row['Mismatch Summary']] of the export:
    [entry.mismatches.map(...).join('; ') || 'No mismatches']. *)
Definition exportSummary (entry : CommonEntry) : string :=
  let joined :=
    join "; "
      (map (fun m =>
              field m +:+ ": " +:+
              ToString numberToString dateToString (gstr2bValue m) +:+
              " vs " +:+
              ToString numberToString dateToString (purchaseRegisterValue m))
         (mismatches entry)) in
  if truthy joined then joined else "No mismatches".

(** One element of [combinedData] in [generateCommonEntriesSheet]. *)
Definition combinedRow (entry : CommonEntry) : Dict Value :=
  let row0 : Dict Value := [] in
  let row1 :=
    fold_left (fun row kv => setProp row ("GSTR-2B: " +:+ fst kv) (snd kv))
      (Object_entries (props (gstr2b entry))) row0 in
  let row2 :=
    fold_left (fun row kv => setProp row ("PR: " +:+ fst kv) (snd kv))
      (Object_entries (props (purchaseRegister entry))) row1 in
  setProp row2 "Mismatch Summary" (VString (exportSummary entry)).

End Rendering.

(** ** [handleReconcile] of the page *)

(** What a click on Reconcile leads to: one of the two early returns with
    their toast, or the engine's result stored in the page state. *)
Inductive ClickOutcome : Type :=
| MissingData
| MissingKeyFields
| ReconciliationComplete (results : MatchResult).

Section Page.

Variable numberToString : float -> string.
Variable dateToString : float -> string.
Variable search : FuseSearch.

Definition handleReconcile (gstr2bData purchaseRegisterData : list JsRecord)
    (matchingThreshold : float) (keyFields : list string)
    (columnMappings : Dict string) : ClickOutcome :=
  if (length gstr2bData =? 0)%nat || (length purchaseRegisterData =? 0)%nat
  then MissingData
  else if (length keyFields =? 0)%nat then MissingKeyFields
  else
    ReconciliationComplete
      (performReconciliation numberToString dateToString search
         gstr2bData purchaseRegisterData
         {| matchingThreshold := matchingThreshold;
            keyFields := keyFields;
            mappedFields := columnMappings |}).

End Page.

(** ** [ColumnMapping.tsx] *)

(** The regular expressions of [isLikelyKeyField], as matchers in
    continuation style. With the [i] flag a pattern letter matches a code
    unit iff both have the same ASCII upper case. *)
Definition upperAscii (c : ascii) : ascii :=
  let n := nat_of_ascii c in
  if (97 <=? n)%nat && (n <=? 122)%nat then ascii_of_nat (n - 32) else c.

Definition sameLetter (p c : ascii) : bool :=
  Ascii.eqb (upperAscii p) (upperAscii c).

(** The literal [pat], then [k] on what follows. *)
Fixpoint matchThen (pat : string) (k : string -> bool) (s : string) : bool :=
  match pat with
  | EmptyString => k s
  | String p pat' =>
      match s with
      | EmptyString => false
      | String c s' => sameLetter p c && matchThen pat' k s'
      end
  end.

(** [.] matches any code unit but a line terminator. *)
Definition isLineTerminator (c : ascii) : bool :=
  (nat_of_ascii c =? 10)%nat || (nat_of_ascii c =? 13)%nat.

(** [.*], then [k]. *)
Fixpoint dotStar (k : string -> bool) (s : string) : bool :=
  k s ||
  match s with
  | EmptyString => false
  | String c s' => negb (isLineTerminator c) && dotStar k s'
  end.

(** [test] of an unanchored pattern: a match may start anywhere. *)
Fixpoint anywhere (k : string -> bool) (s : string) : bool :=
  k s ||
  match s with
  | EmptyString => false
  | String _ s' => anywhere k s'
  end.

Definition succeed (rest : string) : bool := true.

Definition atEnd (rest : string) : bool :=
  match rest with
  | EmptyString => true
  | String _ _ => false
  end.

(** [/invoice/i, /bill/i, /gstin/i, /gst.*no/i, /^gst$/i] *)
Definition keywordPatterns : list (string -> bool) :=
  [ anywhere (matchThen "invoice" succeed);
    anywhere (matchThen "bill" succeed);
    anywhere (matchThen "gstin" succeed);
    anywhere (matchThen "gst" (dotStar (matchThen "no" succeed)));
    matchThen "gst" atEnd ].

Definition isLikelyKeyField (fieldName : string) : bool :=
  existsb (fun pattern => pattern fieldName) keywordPatterns.

(** ** [FileUpload.tsx]: the file-name test of [onDrop] *)






Module ColumnMapping.

(** One row of the mapping editor. *)
Record Mapping : Type := mkMapping {
  gstr2b : string;
  pr : string;
  isKey : bool
}.

(** What [updateParentComponents] hands to [onMappingChange] and
    [onKeyFieldsChange]. *)
Definition mappingObject (currentMappings : list Mapping) : Dict string :=
  fold_left
    (fun obj mapping =>
       if truthy (gstr2b mapping) && truthy (pr mapping)
       then setProp obj (gstr2b mapping) (pr mapping)
       else obj)
    currentMappings [].

Definition keyFieldsOf (currentMappings : list Mapping) : list string :=
  map gstr2b
    (List.filter (fun mapping => isKey mapping && truthy (gstr2b mapping))
       currentMappings).

Definition updateParentComponents (currentMappings : list Mapping)
    : Dict string * list string :=
  (mappingObject currentMappings, keyFieldsOf currentMappings).

(** [addMapping]: a blank row at the end; the parent is not notified. *)
Definition addMapping (mappings : list Mapping) : list Mapping :=
  mappings ++ [{| gstr2b := ""; pr := ""; isKey := false |}].

(** [removeMapping]: [splice(index, 1)] on a copy, then the parent is
    notified with the new rows. *)
Definition removeMapping (mappings : list Mapping) (index : nat)
    : list Mapping :=
  firstn index mappings ++ skipn (S index) mappings.

Section AutoSuggest.

Variable toLowerCase : string -> string.

(** The effect that runs when the headers change: [None] when one of the
    header lists is empty and nothing happens, else the rows that are set
    and passed to [updateParentComponents]. *)
Definition suggestOnHeaders (gstr2bHeaders purchaseRegisterHeaders : list string)
    : option (list Mapping) :=
  if (0 <? length gstr2bHeaders)%nat && (0 <? length purchaseRegisterHeaders)%nat
  then
    let suggestedMappings :=
      suggestColumnMappings toLowerCase gstr2bHeaders purchaseRegisterHeaders in
    let mappingsArray :=
      map (fun kv => {| gstr2b := fst kv; pr := snd kv;
                        isKey := isLikelyKeyField (toLowerCase (fst kv)) |})
        (Object_entries suggestedMappings) in
    if negb (existsb isKey mappingsArray) then
      match List.find (fun h => isLikelyKeyField (toLowerCase h)) gstr2bHeaders with
      | Some possibleKeyField =>
          if truthy possibleKeyField then
            match List.find
                    (fun h => String_includes (toLowerCase h)
                                (toLowerCase possibleKeyField))
                    purchaseRegisterHeaders with
            | Some matchingPrField =>
                if truthy matchingPrField then
                  Some (mappingsArray ++
                          [{| gstr2b := possibleKeyField;
                              pr := matchingPrField;
                              isKey := true |}])
                else Some mappingsArray
            | None => Some mappingsArray
            end
          else Some mappingsArray
      | None => Some mappingsArray
      end
    else Some mappingsArray
  else None.

End AutoSuggest.

End ColumnMapping.

(** * Properties of the matching loop *)

Section EngineFacts.

Variable numberToString : float -> string.
Variable dateToString : float -> string.
Variable search : FuseSearch.

Local Abbreviation run := (performReconciliation numberToString dateToString search).
Local Abbreviation step := (processEntry numberToString dateToString search).
Local Abbreviation pairOf := (matchFor numberToString dateToString search).
Local Abbreviation pattern := (searchPattern numberToString dateToString).
Local Abbreviation diffs := (findMismatches numberToString dateToString).
Local Abbreviation pairsOf' := (pairsOf numberToString dateToString search).
Local Abbreviation paired' := (paired numberToString dateToString search).
Local Abbreviation str := (ToString numberToString dateToString).

#[local] Set Warnings "-clear-no-such-hyp".

(** One iteration, by cases on [matchFor]. *)
Lemma processEntry_cases tgt options st e :
  step tgt options st e =
  match pairOf tgt options e with
  | Some p =>
      {| st_common := st_common st ++ [p];
         st_moreInGstr2b := st_moreInGstr2b st;
         matchedPurchaseIndices :=
           {[ indexOf tgt (purchaseRegister p) ]} ∪ matchedPurchaseIndices st |}
  | None => noMatch st e
  end.
Proof.
  unfold processEntry, matchFor.
  destruct (search _ _ _) as [|first rest]; [reflexivity|].
  destruct (js_le _ _); reflexivity.
Qed.

Lemma loop_state tgt options src : forall st,
  let st' := fold_left (step tgt options) src st in
  st_common st' = st_common st ++ pairsOf' tgt options src /\
  st_moreInGstr2b st' =
    st_moreInGstr2b st ++ List.filter (fun e => negb (paired' tgt options e)) src /\
  matchedPurchaseIndices st' =
    consumed tgt (pairsOf' tgt options src) ∪ matchedPurchaseIndices st.
Proof.
  induction src as [|e src IH]; intros st; cbn -[processEntry].
  - rewrite !app_nil_r. repeat split. unfold consumed. set_solver.
  - destruct (IH (step tgt options st e)) as (Hc & Hm & Hs).
    rewrite Hc, Hm, Hs, processEntry_cases.
    unfold consumed, pairsOf, paired. cbn.
    destruct (pairOf tgt options e) as [p|]; cbn.
    + rewrite <- app_assoc. repeat split. set_solver.
    + rewrite <- app_assoc. repeat split.
Qed.

Lemma collectUnmatched_unconsumed matched rows : forall index acc,
  collectUnmatched matched index rows acc = acc ++ unconsumed matched index rows.
Proof.
  induction rows as [|row rows IH]; intros index acc; cbn.
  - now rewrite app_nil_r.
  - rewrite IH. destruct (bool_decide _); [reflexivity|].
    now rewrite <- app_assoc.
Qed.

(** What a run returns, in closed form. *)
Lemma run_closed_form src tgt options :
  run src tgt options =
  {| common := pairsOf' tgt options src;
     moreInGstr2b := List.filter (fun e => negb (paired' tgt options e)) src;
     lessInGstr2b := unconsumed (consumed tgt (pairsOf' tgt options src)) 0 tgt |}.
Proof.
  unfold performReconciliation.
  destruct (loop_state tgt options src initialState) as (Hc & Hm & Hs).
  rewrite Hc, Hm, Hs, collectUnmatched_unconsumed. cbn.
  now rewrite union_empty_r_L.
Qed.

Lemma unconsumed_length matched rows : forall index,
  length (unconsumed matched index rows) + consumedIn matched index rows
  = length rows.
Proof.
  induction rows as [|row rows IH]; intros index; cbn; [reflexivity|].
  specialize (IH (S index)).
  destruct (bool_decide _); cbn; lia.
Qed.

Lemma unconsumed_sublist matched rows : forall index,
  sublist (unconsumed matched index rows) rows.
Proof.
  induction rows as [|row rows IH]; intros index; cbn; [constructor|].
  destruct (bool_decide _); constructor; apply IH.
Qed.

Lemma filter_sublist {A : Type} (f : A -> bool) (l : list A) :
  sublist (List.filter f l) l.
Proof.
  induction l as [|x l IH]; cbn; [constructor|].
  destruct (f x); constructor; exact IH.
Qed.

Lemma matchFor_gstr2b tgt options e p :
  pairOf tgt options e = Some p -> gstr2b p = e.
Proof.
  unfold matchFor. destruct (search _ _ _) as [|first rest]; [discriminate|].
  destruct (js_le _ _); [|discriminate]. now intros [= <-].
Qed.

Lemma pairsOf_sources tgt options src :
  map gstr2b (pairsOf' tgt options src) = List.filter (paired' tgt options) src.
Proof.
  unfold pairsOf, paired. induction src as [|e src IH]; cbn; [reflexivity|].
  destruct (pairOf tgt options e) as [p|] eqn:Hp; cbn.
  - now rewrite IH, (matchFor_gstr2b _ _ _ _ Hp).
  - exact IH.
Qed.

Lemma pairsOf_inv tgt options src p :
  In p (pairsOf' tgt options src) ->
  In (gstr2b p) src /\ pairOf tgt options (gstr2b p) = Some p.
Proof.
  unfold pairsOf. induction src as [|e src IH]; cbn; [tauto|].
  destruct (pairOf tgt options e) as [q|] eqn:Hq; cbn.
  - intros [<-|Hin].
    + rewrite (matchFor_gstr2b _ _ _ _ Hq). auto.
    + destruct (IH Hin); auto.
  - intros Hin. destruct (IH Hin); auto.
Qed.

Lemma filter_split_length {A : Type} (f : A -> bool) (l : list A) :
  length (List.filter f l) + length (List.filter (fun x => negb (f x)) l)
  = length l.
Proof.
  induction l as [|x l IH]; cbn; [reflexivity|].
  destruct (f x); cbn; lia.
Qed.

(** ** The comparison of one pair *)

(** The guard [typeof v === 'number'] holds exactly of the [VNumber] cells,
    which is how [compareField] selects its numeric branch. *)
Lemma typeof_number v : typeof v = "number" <-> exists x, v = VNumber x.
Proof.
  split.
  - destruct v; cbn; try discriminate. intros _. now exists x.
  - now intros [x ->].
Qed.

Lemma compareField_cases options e b acc f g :
  compareField numberToString dateToString options e b acc (f, g) =
  if Array_includes (keyFields options) f then acc
  else if valuesDiffer numberToString dateToString (get e f) (get b g)
       then acc ++ [{| field := f; gstr2bValue := get e f;
                       purchaseRegisterValue := get b g |}]
       else acc.
Proof.
  unfold compareField, valuesDiffer.
  destruct (Array_includes _ _); [reflexivity|].
  destruct (get e f), (get b g); cbv beta iota; try reflexivity;
    match goal with
    | |- context [String.eqb ?x ?y] => now destruct (String.eqb x y)
    end.
Qed.

Lemma Array_includes_false arr x : Array_includes arr x = false <-> ~ In x arr.
Proof.
  unfold Array_includes. split.
  - intros Hf Hin. assert (existsb (String.eqb x) arr = true) as Ht.
    { apply existsb_exists. exists x. split; [exact Hin|apply String.eqb_refl]. }
    congruence.
  - intros Hn. destruct (existsb _ _) eqn:He; [|reflexivity].
    apply existsb_exists in He as (y & Hy & Hxy).
    apply String.eqb_eq in Hxy. subst. contradiction.
Qed.

Lemma mismatches_fold options e b entries : forall acc m,
  In m (fold_left (compareField numberToString dateToString options e b) entries acc)
  <-> In m acc \/
      exists f g, In (f, g) entries /\ ~ In f (keyFields options) /\
        valuesDiffer numberToString dateToString (get e f) (get b g) = true /\
        m = {| field := f; gstr2bValue := get e f;
               purchaseRegisterValue := get b g |}.
Proof.
  induction entries as [|[f g] entries IH]; intros acc m; cbn -[compareField].
  - split; [auto|]. intros [H|(f & g & [] & _)]. exact H.
  - rewrite IH, compareField_cases.
    destruct (Array_includes (keyFields options) f) eqn:Hk.
    + split; (intros [H|(f' & g' & Hin & Hnk & Hd & ->)]; [now left|right]).
      * exists f', g'. auto.
      * destruct Hin as [[= <- <-]|Hin].
        -- apply Array_includes_false in Hnk. congruence.
        -- exists f', g'. auto.
    + apply Array_includes_false in Hk.
      destruct (valuesDiffer _ _ (get e f) (get b g)) eqn:Hd.
      * split.
        -- intros [H|(f' & g' & Hin & Hnk & Hd' & ->)].
           ++ apply in_app_or in H as [H|[<-|[]]]; [now left|right].
              exists f, g. auto.
           ++ right. exists f', g'. auto.
        -- intros [H|(f' & g' & Hin & Hnk & Hd' & ->)].
           ++ left. apply in_or_app. now left.
           ++ destruct Hin as [[= <- <-]|Hin].
              ** left. apply in_or_app. right. now left.
              ** right. exists f', g'. auto.
      * split; (intros [H|(f' & g' & Hin & Hnk & Hd' & ->)]; [now left|]).
        -- right. exists f', g'. auto.
        -- destruct Hin as [[= <- <-]|Hin]; [congruence|].
           right. exists f', g'. auto.
Qed.

Lemma findMismatches_In options e b m :
  In m (diffs options e b) <->
  exists f g, In (f, g) (Object_entries (mappedFields options)) /\
    ~ In f (keyFields options) /\
    valuesDiffer numberToString dateToString (get e f) (get b g) = true /\
    m = {| field := f; gstr2bValue := get e f; purchaseRegisterValue := get b g |}.
Proof.
  unfold findMismatches. rewrite mismatches_fold. cbn. tauto.
Qed.

Lemma matchFor_mismatches tgt options e p :
  pairOf tgt options e = Some p ->
  mismatches p = diffs options (gstr2b p) (purchaseRegister p).
Proof.
  unfold matchFor. destruct (search _ _ _) as [|first rest]; [discriminate|].
  destruct (js_le _ _); [|discriminate]. now intros [= <-].
Qed.

Lemma common_mismatches src tgt options p :
  In p (common (run src tgt options)) ->
  mismatches p = diffs options (gstr2b p) (purchaseRegister p).
Proof.
  rewrite run_closed_form. cbn. intros Hin.
  apply pairsOf_inv in Hin as [_ Hp].
  exact (matchFor_mismatches _ _ _ _ Hp).
Qed.

(** A source value of zero, of either sign, leaves no tolerance. *)
Lemma zero_source_flags s t :
  PrimFloat.eqb s 0 = true ->
  PrimFloat.ltb 0 (PrimFloat.abs t) = true -> exceedsTolerance s t = true.
Proof.
  unfold exceedsTolerance.
  rewrite FloatAxioms.eqb_spec, !FloatAxioms.ltb_spec, !FloatAxioms.abs_spec,
    FloatAxioms.mul_spec, FloatAxioms.abs_spec, FloatAxioms.sub_spec.
  change (Prim2SF 0) with (S754_zero false).
  set (k := Prim2SF 0.001). vm_compute in k. subst k.
  destruct (Prim2SF s) as [b| b | |b m e]; cbn;
    try discriminate; try (destruct b; discriminate).
  intros _.
  destruct (Prim2SF t) as [c| c | |c m e]; cbn; try discriminate; auto.
Qed.

(** ** Statements about every run *)

(** C5. Every source record lands in exactly one of [common] (as the
    [gstr2b] side of one pair) and [moreInGstr2b]: one test per record
    decides which, the two sequences are the two sides of that split of
    the source dataset, and their lengths add up to its length. *)
Theorem source_partition src tgt options :
  let r := run src tgt options in
  (exists accept : JsRecord -> bool,
      map gstr2b (common r) = List.filter accept src /\
      moreInGstr2b r = List.filter (fun e => negb (accept e)) src) /\
  length (common r) + length (moreInGstr2b r) = length src.
Proof.
  cbn zeta. rewrite run_closed_form. cbn [common moreInGstr2b].
  split.
  - exists (paired' tgt options). split; [apply pairsOf_sources|reflexivity].
  - rewrite <- (length_map gstr2b), pairsOf_sources.
    apply filter_split_length.
Qed.

(** C6. A source record is paired iff its query returns a candidate and
    the first candidate scores at most [1 - threshold/100]; the pair's
    counterpart is that candidate. Every other source record is placed in
    [moreInGstr2b]. *)
Theorem acceptance_rule src tgt options :
  let r := run src tgt options in
  let ceiling := (1 - matchingThreshold options / 100)%float in
  let results e := search (fuseOptions options) tgt (pattern options e) in
  let accepted e :=
    match results e with
    | first :: _ => js_le (score first) ceiling
    | [] => false
    end in
  map gstr2b (common r) = List.filter accepted src /\
  moreInGstr2b r = List.filter (fun e => negb (accepted e)) src /\
  Forall (fun p => exists first rest,
              results (gstr2b p) = first :: rest /\
              js_le (score first) ceiling = true /\
              purchaseRegister p = item first) (common r).
Proof.
  cbn zeta. rewrite run_closed_form. cbn [common moreInGstr2b].
  assert (forall e, paired' tgt options e =
                    match search (fuseOptions options) tgt (pattern options e) with
                    | first :: _ =>
                        js_le (score first) (1 - matchingThreshold options / 100)%float
                    | [] => false
                    end) as Hacc.
  { intros e. unfold paired, matchFor, scoreCeiling.
    destruct (search _ _ _) as [|first rest]; [reflexivity|].
    now destruct (js_le _ _). }
  split; [|split].
  - rewrite pairsOf_sources. apply filter_ext. exact Hacc.
  - apply filter_ext. intros e. now rewrite Hacc.
  - apply List.Forall_forall. intros p Hin.
    apply pairsOf_inv in Hin as [_ Hp].
    revert Hp. unfold matchFor, scoreCeiling.
    destruct (search _ _ _) as [|first rest]; [discriminate|].
    destruct (js_le _ _) eqn:Hle; [|discriminate].
    intros [= <-]. cbn. exists first, rest. auto.
Qed.

(** C7. No mismatch of any pair is reported on a key field. *)
Theorem key_fields_never_flagged src tgt options :
  Forall (fun p => Forall (fun m => ~ In (field m) (keyFields options))
                     (mismatches p))
    (common (run src tgt options)).
Proof.
  apply List.Forall_forall. intros p Hin.
  rewrite (common_mismatches _ _ _ _ Hin).
  apply List.Forall_forall. intros m Hm.
  apply findMismatches_In in Hm as (f & g & _ & Hk & _ & ->). exact Hk.
Qed.

(** C10. The three output sequences keep the input order: the source sides
    of [common] and the records of [moreInGstr2b] are subsequences of the
    source dataset, and [lessInGstr2b] is the target dataset with the
    consumed positions removed. *)
Theorem outputs_keep_input_order src tgt options :
  let r := run src tgt options in
  sublist (map gstr2b (common r)) src /\
  sublist (moreInGstr2b r) src /\
  lessInGstr2b r = unconsumed (consumed tgt (common r)) 0 tgt /\
  sublist (lessInGstr2b r) tgt.
Proof.
  cbn zeta. rewrite run_closed_form. cbn [common moreInGstr2b lessInGstr2b].
  repeat split.
  - rewrite pairsOf_sources. apply filter_sublist.
  - apply filter_sublist.
  - apply unconsumed_sublist.
Qed.

(** C4. For a pair of [common] and a mapped field that is not a key field,
    the mismatch on that field is reported iff, when both cells are numbers,
    [|s - t| > |s| * 0.001] in binary64 arithmetic, and otherwise iff the two
    cells print differently; and every mismatch of a pair is reported on a
    mapped field outside the key fields, with the two cells of the pair as
    its values. Hence 100 against 100.09 is not reported,
    100 against 100.11 is, and a zero source against any target of
    non-zero magnitude is. *)
Theorem tolerance_policy :
  (forall src tgt options p f g,
      In p (common (run src tgt options)) ->
      In (f, g) (Object_entries (mappedFields options)) ->
      ~ In f (keyFields options) ->
      let sv := get (gstr2b p) f in
      let tv := get (purchaseRegister p) g in
      In {| field := f; gstr2bValue := sv; purchaseRegisterValue := tv |}
         (mismatches p)
      <-> match sv, tv with
          | VNumber s, VNumber t =>
              PrimFloat.ltb (PrimFloat.abs s * 0.001) (PrimFloat.abs (s - t))
              = true
          | _, _ => str sv <> str tv
          end) /\
  (forall src tgt options p m,
      In p (common (run src tgt options)) ->
      In m (mismatches p) ->
      exists f g,
        In (f, g) (Object_entries (mappedFields options)) /\
        ~ In f (keyFields options) /\
        m = {| field := f;
               gstr2bValue := get (gstr2b p) f;
               purchaseRegisterValue := get (purchaseRegister p) g |}) /\
  exceedsTolerance 100 100.09 = false /\
  exceedsTolerance 100 100.11 = true /\
  (forall s t, PrimFloat.eqb s 0 = true ->
               PrimFloat.ltb 0 (PrimFloat.abs t) = true ->
               exceedsTolerance s t = true).
Proof.
  split; [|split; [|split; [reflexivity|split; [reflexivity|exact zero_source_flags]]]].
  2: { intros src tgt options p m Hp Hm.
       rewrite (common_mismatches _ _ _ _ Hp) in Hm.
       apply findMismatches_In in Hm as (f & g & Hfg & Hk & _ & ->).
       exists f, g. auto. }
  intros src tgt options p f g Hp Hfg Hk sv tv.
  rewrite (common_mismatches _ _ _ _ Hp), findMismatches_In.
  assert (valuesDiffer numberToString dateToString sv tv = true <->
          match sv, tv with
          | VNumber s, VNumber t =>
              PrimFloat.ltb (PrimFloat.abs s * 0.001) (PrimFloat.abs (s - t))
              = true
          | _, _ => str sv <> str tv
          end) as Hpol.
  { unfold valuesDiffer, exceedsTolerance.
    destruct sv, tv; cbv beta iota zeta; try reflexivity;
      rewrite negb_true_iff, <- not_true_iff_false, String.eqb_eq; reflexivity. }
  rewrite <- Hpol. split.
  - intros (f' & g' & _ & _ & Hd & [= -> _ Ht]).
    subst sv tv. rewrite Ht. exact Hd.
  - intros Hd. exists f, g. auto.
Qed.

(** ** Two source records with the same key values *)

Lemma consumedIn_past k rows : forall index,
  (k < Z.of_nat index)%Z -> consumedIn {[ k ]} index rows = 0.
Proof.
  induction rows as [|row rows IH]; intros index Hlt; cbn; [reflexivity|].
  rewrite IH by lia.
  rewrite bool_decide_eq_false_2; [reflexivity|].
  rewrite elem_of_singleton. lia.
Qed.

Lemma consumedIn_singleton k rows : forall index,
  consumedIn {[ k ]} index rows <= 1.
Proof.
  induction rows as [|row rows IH]; intros index; cbn; [lia|].
  destruct (bool_decide _) eqn:Hd.
  - apply bool_decide_eq_true_1, elem_of_singleton in Hd.
    rewrite consumedIn_past by lia. lia.
  - apply IH.
Qed.

(** C1. The set [matchedPurchaseIndices] is only read after the loop, so a
    target record already paired stays a candidate: when two source records
    build the same search pattern and the first is paired, both pairs have
    the same counterpart, and [common] and [lessInGstr2b] together hold
    more records than the target dataset. *)
Theorem shared_counterpart e1 e2 tgt options first rest :
  pattern options e2 = pattern options e1 ->
  search (fuseOptions options) tgt (pattern options e1) = first :: rest ->
  js_le (score first) (scoreCeiling options) = true ->
  let r := run [e1; e2] tgt options in
  map gstr2b (common r) = [e1; e2] /\
  map purchaseRegister (common r) = [item first; item first] /\
  length tgt < length (common r) + length (lessInGstr2b r).
Proof.
  intros Hpat Hres Hle. cbn zeta. rewrite run_closed_form.
  cbn [common lessInGstr2b].
  unfold pairsOf, consumed, matchFor. cbn [omap list_omap].
  rewrite Hpat, Hres, Hle. cbn.
  repeat split.
  replace ({[indexOf tgt (item first)]} ∪ ({[indexOf tgt (item first)]} ∪ ∅))
    with ({[indexOf tgt (item first)]} : gset Z) by set_solver.
  pose proof (unconsumed_length {[indexOf tgt (item first)]} tgt 0).
  pose proof (consumedIn_singleton (indexOf tgt (item first)) tgt 0).
  lia.
Qed.

(** ** The index keys *)

Lemma setProp_keys {A : Type} (o : Dict A) k v k' :
  In k' (map fst (setProp o k v)) <-> In k' (map fst o) \/ k' = k.
Proof.
  induction o as [|[k0 v0] o IH]; cbn.
  - intuition.
  - destruct (String.eqb k0 k) eqn:Hk; cbn.
    + apply String.eqb_eq in Hk. subst. intuition.
    + rewrite IH. intuition.
Qed.

Lemma pattern_keys_from (value : string -> string) ks : forall acc k,
  In k (map fst (fold_left (fun p key => setProp p key (value key)) ks acc))
  <-> In k (map fst acc) \/ In k ks.
Proof.
  induction ks as [|k0 ks IH]; intros acc k; cbn.
  - intuition.
  - rewrite IH, setProp_keys. intuition.
Qed.

(** C2. The index is built on the key fields as they are named on the
    source side, and the pattern is keyed the same way; the field mapping is
    not consulted. On the scenario's options the keys are [invoice] and
    [gstin], where translation gives [inv_no] and [gst]. *)
Theorem index_keys_are_source_names :
  (forall options, keys (fuseOptions options) = keyFields options) /\
  (forall options e k,
      In k (map fst (pattern options e)) <-> In k (keyFields options)) /\
  keys (fuseOptions Scenario.options) = ["invoice"; "gstin"] /\
  map fst (pattern Scenario.options Scenario.sourceRow) = ["invoice"; "gstin"] /\
  translatedKeyFields Scenario.options = [Some "inv_no"; Some "gst"].
Proof.
  split; [|split; [|repeat split]].
  - intros options. unfold fuseOptions. cbn. apply map_id.
  - intros options e k. unfold searchPattern.
    rewrite (pattern_keys_from
               (fun key => toStringOrEmpty numberToString dateToString (get e key))).
    cbn. intuition.
Qed.

(** C3. On the scenario's data the index is keyed on [invoice] and [gstin],
    which the target row does not have. A search that only returns
    documents of its collection holding a value under every queried key
    returns nothing, so the run has no pair and both rows are left over. *)
Theorem scenario_finds_no_pair :
  (forall o docs q r,
      In r (search o docs q) ->
      In (item r) docs /\
      forall k, In k (map fst q) -> get (item r) k <> VUndefined) ->
  run [Scenario.sourceRow] [Scenario.targetRow] Scenario.options
  = {| common := [];
       moreInGstr2b := [Scenario.sourceRow];
       lessInGstr2b := [Scenario.targetRow] |}.
Proof.
  intros Hsound.
  assert (search (fuseOptions Scenario.options) [Scenario.targetRow]
            (pattern Scenario.options Scenario.sourceRow) = []) as Hnone.
  { destruct (search _ _ _) as [|first rest] eqn:Hres; [reflexivity|].
    assert (In first (first :: rest)) as Hin by now left.
    rewrite <- Hres in Hin.
    destruct (Hsound _ _ _ _ Hin) as [[Hdoc|[]] Hkey].
    exfalso. apply (Hkey "invoice"); [cbn; auto|].
    now rewrite <- Hdoc. }
  rewrite run_closed_form. unfold pairsOf, paired, consumed, matchFor.
  cbn [omap list_omap List.filter map]. rewrite Hnone. reflexivity.
Qed.

(** ** No key fields *)

Lemma unconsumed_none rows : forall index, unconsumed ∅ index rows = rows.
Proof.
  induction rows as [|row rows IH]; intros index; cbn; [reflexivity|].
  now rewrite IH.
Qed.

Lemma filter_all {A : Type} (f : A -> bool) (l : list A) :
  (forall x, f x = true) -> List.filter f l = l.
Proof.
  intros Hf. induction l as [|x l IH]; cbn; [reflexivity|].
  now rewrite Hf, IH.
Qed.

Lemma filter_none {A : Type} (f : A -> bool) (l : list A) :
  (forall x, f x = false) -> List.filter f l = [].
Proof.
  intros Hf. induction l as [|x l IH]; cbn; [reflexivity|].
  now rewrite Hf, IH.
Qed.

Lemma all_paired tgt options (mk : JsRecord -> CommonEntry) src :
  (forall e, pairOf tgt options e = Some (mk e)) ->
  pairsOf' tgt options src = map mk src.
Proof.
  intros Hp. unfold pairsOf. induction src as [|e src IH]; cbn; [reflexivity|].
  now rewrite Hp, IH.
Qed.

Lemma all_left_over tgt options src :
  (forall e, pairOf tgt options e = None) ->
  {| common := pairsOf' tgt options src;
     moreInGstr2b := List.filter (fun e => negb (paired' tgt options e)) src;
     lessInGstr2b := unconsumed (consumed tgt (pairsOf' tgt options src)) 0 tgt |}
  = {| common := []; moreInGstr2b := src; lessInGstr2b := tgt |}.
Proof.
  intros Hp.
  assert (pairsOf' tgt options src = []) as ->.
  { unfold pairsOf. induction src as [|e src IH]; cbn; [reflexivity|].
    now rewrite Hp, IH. }
  rewrite filter_all by (intros e; unfold paired; now rewrite Hp).
  unfold consumed. cbn. now rewrite unconsumed_none.
Qed.

(** C9. With no key fields the engine runs its ordinary loop and returns a
    result: the index has no keys, every source record queries it with the
    empty pattern, and all of them are paired with the first candidate of
    that query or all are left over. Nothing in the engine rejects the
    options; it is the Reconcile button that is disabled, and the page's
    [canReconcile] that is false, when no key field is selected. *)
Theorem no_key_fields_run src tgt t mapping isDisabled :
  let options :=
    {| matchingThreshold := t; keyFields := []; mappedFields := mapping |} in
  let ceiling := (1 - t / 100)%float in
  let probe :=
    search {| includeScore := true; threshold := ceiling; keys := [] |} tgt [] in
  let leftOver :=
    {| common := []; moreInGstr2b := src; lessInGstr2b := tgt |} in
  run src tgt options =
    match probe with
    | first :: _ =>
        if js_le (score first) ceiling then
          {| common :=
               map (fun e => {| gstr2b := e;
                                purchaseRegister := item first;
                                mismatches := diffs options e (item first) |})
                 src;
             moreInGstr2b := [];
             lessInGstr2b :=
               match src with
               | [] => tgt
               | _ :: _ => unconsumed {[ indexOf tgt (item first) ]} 0 tgt
               end |}
        else leftOver
    | [] => leftOver
    end
  /\ reconcileDisabled isDisabled [] = true
  /\ canReconcile src tgt [] mapping = false.
Proof.
  cbn zeta.
  split; [|split; [unfold reconcileDisabled; cbn; apply orb_true_r|]].
  2: { unfold canReconcile. cbn. now rewrite andb_false_r. }
  rewrite run_closed_form.
  set (options := {| matchingThreshold := t; keyFields := [];
                     mappedFields := mapping |}).
  assert (forall e, pairOf tgt options e =
            match search {| includeScore := true;
                            threshold := (1 - t / 100)%float;
                            keys := [] |} tgt [] with
            | first :: _ =>
                if js_le (score first) (1 - t / 100)%float then
                  Some {| gstr2b := e; purchaseRegister := item first;
                          mismatches := diffs options e (item first) |}
                else None
            | [] => None
            end) as Hpair by reflexivity.
  destruct (search _ tgt []) as [|first rest].
  - rewrite (all_left_over _ _ _ Hpair). reflexivity.
  - destruct (js_le (score first) (1 - t / 100)).
    + rewrite (all_paired _ _ _ _ Hpair).
      unfold paired. f_equal.
      * apply filter_none. intros e. now rewrite Hpair.
      * destruct src as [|e src]; [apply unconsumed_none|].
        f_equal. unfold consumed. rewrite map_map. cbn [map purchaseRegister].
        generalize (indexOf tgt (item first)). intros k.
        induction src as [|e' src IH]; cbn in *; set_solver.
    + rewrite (all_left_over _ _ _ Hpair). reflexivity.
Qed.

End EngineFacts.

(** * Properties of the mapping suggestion *)

Lemma append_cons c a b : (String c a ++ b)%string = String c (a ++ b)%string.
Proof. reflexivity. Qed.

Lemma append_empty b : (EmptyString ++ b)%string = b.
Proof. reflexivity. Qed.

Lemma prefix_occurs p : forall s,
  String.prefix p s = true <-> exists b, s = (p ++ b)%string.
Proof.
  induction p as [|c p IH]; intros s; cbn.
  - split; [intros _; now exists s|intros _; now destruct s].
  - destruct s as [|d s]; cbn.
    + split; [discriminate|].
      intros [b Hb]. rewrite append_cons in Hb. discriminate.
    + destruct (Ascii.ascii_dec c d) as [->|Hne].
      * rewrite IH. split; intros [b Hb]; exists b;
          rewrite ?append_cons in *; congruence.
      * split; [discriminate|].
        intros [b Hb]. rewrite append_cons in Hb. congruence.
Qed.

Lemma String_includes_occurs sub : forall s,
  String_includes s sub = true <-> exists a b, s = (a ++ sub ++ b)%string.
Proof.
  induction s as [|c s IH]; cbn [String_includes].
  - rewrite orb_false_r, prefix_occurs. split.
    + intros [b Hb]. now exists EmptyString, b.
    + intros ([|d a] & b & Hab); [now exists b|].
      rewrite append_cons in Hab. discriminate.
  - rewrite orb_true_iff, prefix_occurs, IH. split.
    + intros [[b Hb]|(a & b & Hab)].
      * now exists EmptyString, b.
      * exists (String c a), b. now rewrite append_cons, Hab.
    + intros ([|d a] & b & Hab).
      * left. now exists b.
      * right. rewrite append_cons in Hab. injection Hab as _ Hab.
        now exists a, b.
Qed.

Lemma find_first {A : Type} (f : A -> bool) (l : list A) (x : A) :
  List.find f l = Some x <->
  exists before after,
    l = before ++ x :: after /\ f x = true /\
    forall y, In y before -> f y <> true.
Proof.
  induction l as [|z l IH]; cbn.
  - split; [discriminate|]. intros ([|? ?] & after & [=] & _).
  - destruct (f z) eqn:Hz.
    + split.
      * intros [= <-]. exists [], l. cbn. tauto.
      * intros ([|y before] & after & Hl & Hx & Hpre).
        -- injection Hl as Hzx _. now rewrite Hzx.
        -- injection Hl as Hzy _. rewrite Hzy in Hz.
           exfalso. exact (Hpre y (or_introl eq_refl) Hz).
    + rewrite IH. split.
      * intros (before & after & -> & Hx & Hpre).
        exists (z :: before), after. cbn. repeat split; [exact Hx|].
        intros y [<-|Hy]; [congruence|now apply Hpre].
      * intros ([|y before] & after & Hl & Hx & Hpre).
        -- injection Hl as Hzx _. congruence.
        -- injection Hl as _ Hl. exists before, after.
           split; [exact Hl|]. split; [exact Hx|].
           intros y' Hy'. apply Hpre. now right.
Qed.

Lemma getOwn_setProp_same {A : Type} (o : Dict A) k v :
  getOwn (setProp o k v) k = Some v.
Proof.
  induction o as [|[k0 v0] o IH]; cbn.
  - now rewrite String.eqb_refl.
  - destruct (String.eqb k0 k) eqn:Hk; cbn; now rewrite Hk.
Qed.

Lemma getOwn_setProp_other {A : Type} (o : Dict A) k v k' :
  k' <> k -> getOwn (setProp o k v) k' = getOwn o k'.
Proof.
  intros Hne. induction o as [|[k0 v0] o IH]; cbn.
  - destruct (String.eqb k k') eqn:Hk; [|reflexivity].
    apply String.eqb_eq in Hk. congruence.
  - destruct (String.eqb k0 k) eqn:Hk; cbn.
    + apply String.eqb_eq in Hk. subst k0.
      destruct (String.eqb k k') eqn:Hk'; [|reflexivity].
      apply String.eqb_eq in Hk'. congruence.
    + now rewrite IH.
Qed.

Lemma firstSuch_here {A : Type} (P : A -> Prop) x l y :
  P x -> (firstSuch P (x :: l) y <-> y = x).
Proof.
  intros Hx. split.
  - intros ([|z before] & after & Hl & _ & Hpre).
    + now injection Hl.
    + injection Hl as Hz _. exfalso. apply (Hpre z); [now left|].
      now rewrite <- Hz.
  - intros ->. exists [], l. cbn. tauto.
Qed.

Lemma firstSuch_skip {A : Type} (P : A -> Prop) x l y :
  ~ P x -> (firstSuch P (x :: l) y <-> firstSuch P l y).
Proof.
  intros Hx. split.
  - intros ([|z before] & after & Hl & Hy & Hpre).
    + injection Hl as Hxy _. congruence.
    + injection Hl as _ Hl. exists before, after.
      split; [exact Hl|]. split; [exact Hy|].
      intros y' Hy'. apply Hpre. now right.
  - intros (before & after & -> & Hy & Hpre).
    exists (x :: before), after. split; [reflexivity|]. split; [exact Hy|].
    intros y' [<-|Hy']; [exact Hx|now apply Hpre].
Qed.

(** Assigning [f k] under each key [k] of a list, where [f k] is defined. *)
Lemma fold_setProp_lookup (f : string -> option string) h t sources :
  forall acc,
    getOwn (fold_left (fun m k => match f k with
                                  | Some v => setProp m k v
                                  | None => m
                                  end) sources acc) h = Some t
    <-> (In h sources /\ f h = Some t)
        \/ ((~ In h sources \/ f h = None) /\ getOwn acc h = Some t).
Proof.
  induction sources as [|h0 sources IH]; intros acc; cbn [fold_left In].
  - intuition.
  - rewrite IH. clear IH.
    assert (h0 <> h ->
            getOwn match f h0 with
                   | Some v => setProp acc h0 v
                   | None => acc
                   end h = getOwn acc h) as Hother.
    { intros Hne. destruct (f h0); [|reflexivity].
      apply getOwn_setProp_other. congruence. }
    destruct (in_dec string_dec h sources) as [Hin|Hnin];
      (destruct (string_dec h0 h) as [->|Hne]; [clear Hother|rewrite (Hother Hne)]);
      try (destruct (f h) as [t0|] eqn:Hf; rewrite ?getOwn_setProp_same);
      intuition congruence.
Qed.

Section SuggestFacts.

Variable toLowerCase : string -> string.

(** Two facts about [toLowerCase] that the suggestion relies on: the empty
    string stays empty and no keyword of a group becomes empty. *)
Hypothesis lower_empty : toLowerCase "" = "".
Hypothesis keywords_not_empty :
  forall g keyword,
    In g commonKeywords -> In keyword (pr g) -> toLowerCase keyword <> "".

Local Abbreviation has := (mentions toLowerCase).
Local Abbreviation scan := (scanKeywordSets toLowerCase).
Local Abbreviation suggest := (suggestColumnMappings toLowerCase).

(** A group can pair [h]: [h] contains one of its source keywords and some
    target header contains one of its target keywords. *)
Local Abbreviation canPair h targets :=
  (fun g => has h (gstr g) /\ exists t, In t targets /\ has t (pr g)).

Lemma containsKeyword_mentions h keywords :
  containsKeyword toLowerCase (toLowerCase h) keywords = true <-> has h keywords.
Proof.
  unfold containsKeyword, mentions, occursIn. rewrite existsb_exists.
  split; intros (kw & Hin & Hocc); exists kw; split; try exact Hin;
    now apply String_includes_occurs.
Qed.

Lemma findPrHeader_first targets g t :
  findPrHeader toLowerCase targets g = Some t
  <-> firstSuch (fun t => has t (pr g)) targets t.
Proof.
  unfold findPrHeader, firstSuch. rewrite find_first.
  split; intros (before & after & Hl & Ht & Hpre); exists before, after;
    (split; [exact Hl|]); (split; [now apply containsKeyword_mentions|]);
    intros y Hy Hc; apply (Hpre y Hy); now apply containsKeyword_mentions.
Qed.

Lemma findPrHeader_none targets g :
  findPrHeader toLowerCase targets g = None ->
  ~ exists t, In t targets /\ has t (pr g).
Proof.
  unfold findPrHeader. intros Hnone (t & Hin & Ht).
  apply containsKeyword_mentions in Ht.
  pose proof (find_none _ _ Hnone t Hin) as Hf. cbn in Hf. congruence.
Qed.

Lemma found_header_truthy targets g t :
  In g commonKeywords ->
  findPrHeader toLowerCase targets g = Some t -> truthy t = true.
Proof.
  intros Hg Hfind. destruct t as [|c t]; [exfalso|reflexivity].
  apply findPrHeader_first in Hfind as (_ & _ & _ & (kw & Hkw & a & b & Hocc) & _).
  rewrite lower_empty in Hocc. apply (keywords_not_empty g kw Hg Hkw).
  destruct a as [|? ?]; [|rewrite append_cons in Hocc; discriminate].
  rewrite append_empty in Hocc.
  destruct (toLowerCase kw); [reflexivity|].
  rewrite append_cons in Hocc. discriminate.
Qed.

Lemma scan_first h targets t sets :
  (forall g, In g sets -> In g commonKeywords) ->
  scan (toLowerCase h) targets sets = Some t
  <-> exists g, firstSuch (canPair h targets) sets g /\
                firstSuch (fun t => has t (pr g)) targets t.
Proof.
  induction sets as [|g0 sets IH]; intros Hsub; cbn [scanKeywordSets].
  - split; [discriminate|].
    intros (g & ([|? ?] & after & [=] & _) & _).
  - assert (forall g, In g sets -> In g commonKeywords) as Hsub'
      by (intros g Hg; apply Hsub; now right).
    assert (~ canPair h targets g0 ->
            scan (toLowerCase h) targets sets = Some t <->
            exists g, firstSuch (canPair h targets) (g0 :: sets) g /\
                      firstSuch (fun t => has t (pr g)) targets t) as Hskip.
    { intros Hno. rewrite (IH Hsub').
      split; intros (g & Hg & Ht); exists g; (split; [|exact Ht]);
        now apply (firstSuch_skip _ g0 sets g Hno). }
    destruct (containsKeyword toLowerCase (toLowerCase h) (gstr g0)) eqn:Hsrc.
    + destruct (findPrHeader toLowerCase targets g0) as [t0|] eqn:Hfind.
      * rewrite (found_header_truthy targets g0 t0 (Hsub g0 (or_introl eq_refl)) Hfind).
        assert (canPair h targets g0) as Hcan.
        { split; [now apply containsKeyword_mentions|].
          pose proof Hfind as Hf. apply findPrHeader_first in Hf.
          destruct Hf as (before & after & -> & Ht0 & _).
          exists t0. split; [|exact Ht0]. apply in_or_app. right. now left. }
        split.
        -- intros [= <-]. exists g0. split.
           ++ now apply firstSuch_here.
           ++ now apply findPrHeader_first.
        -- intros (g & Hg & Ht).
           apply (firstSuch_here _ g0 sets g Hcan) in Hg. subst g.
           apply findPrHeader_first in Ht. congruence.
      * apply Hskip. intros [_ Hex].
        exact (findPrHeader_none targets g0 Hfind Hex).
    + apply Hskip. intros [Hm _].
      apply containsKeyword_mentions in Hm. congruence.
Qed.

Lemma suggest_fold targets h t sources acc :
  getOwn (fold_left (suggestForHeader toLowerCase targets) sources acc) h = Some t
  <-> (In h sources /\ scan (toLowerCase h) targets commonKeywords = Some t)
      \/ ((~ In h sources \/
           scan (toLowerCase h) targets commonKeywords = None)
          /\ getOwn acc h = Some t).
Proof.
  exact (fold_setProp_lookup
           (fun k => scan (toLowerCase k) targets commonKeywords)
           h t sources acc).
Qed.

(** C8. The suggestion for a source header is decided by the first keyword
    group, in declaration order, whose source keywords the header contains
    case-insensitively and for which some target header contains one of the
    group's target keywords; the header is paired with the first such target
    header, in the order of the target list, and no later group is tried. A
    source header with no such group, and any name that is not a source
    header, is absent from the mapping. *)
Theorem suggestion_rule sources targets h t :
  getOwn (suggest sources targets) h = Some t
  <-> In h sources /\
      exists g, firstSuch (canPair h targets) commonKeywords g /\
                firstSuch (fun t => has t (pr g)) targets t.
Proof.
  unfold suggestColumnMappings. rewrite suggest_fold. cbn [getOwn].
  rewrite <- (scan_first h targets t commonKeywords (fun g Hg => Hg)).
  intuition discriminate.
Qed.

End SuggestFacts.

(** * The engine on concrete data *)

Lemma docScore_defined doc q : forall s,
  Host.docScore doc q = Some s ->
  forall k, In k (map fst q) -> get doc k <> VUndefined.
Proof.
  induction q as [|[k0 v0] q IH]; intros s Hs k Hk; cbn in *; [contradiction|].
  unfold Host.keyAgrees in Hs. cbn [fst snd] in Hs.
  destruct Hk as [<-|Hk].
  - intros Hu. rewrite Hu in Hs. cbn in Hs. discriminate.
  - destruct (optToString _ _ (get doc k0)); [|discriminate].
    destruct (Host.docScore doc q) as [s'|]; [exact (IH s' eq_refl k Hk)|].
    destruct (String.eqb _ _); discriminate.
Qed.

Lemma scoreDocs_In q docs : forall i r,
  In r (Host.scoreDocs docs q i) ->
  In (item r) docs /\ exists s, Host.docScore (item r) q = Some s.
Proof.
  induction docs as [|doc docs IH]; intros i r Hin; cbn in *; [contradiction|].
  destruct (Host.docScore doc q) as [s|] eqn:Hs.
  - destruct Hin as [<-|Hin]; cbn.
    + split; [now left|now exists s].
    + destruct (IH _ _ Hin). auto.
  - destruct (IH _ _ Hin). auto.
Qed.

(** The exact searcher returns documents of its collection that hold a
    value under every queried key. *)
Lemma exactSearch_sound o docs q r :
  In r (Host.exactSearch o docs q) ->
  In (item r) docs /\
  forall k, In k (map fst q) -> get (item r) k <> VUndefined.
Proof.
  unfold Host.exactSearch. intros Hin.
  assert (In r (Host.scoreDocs docs q 0)) as Hscored.
  { apply in_app_or in Hin as [Hin|Hin];
      apply filter_In in Hin as [Hin _]; now apply filter_In in Hin as [Hin _]. }
  destruct (scoreDocs_In _ _ _ _ Hscored) as [Hdoc [s Hs]].
  split; [exact Hdoc|]. exact (docScore_defined _ _ _ Hs).
Qed.

Lemma shared_counterpart_witness :
  let r := Host.reconcile [Scenario.twin 1; Scenario.twin 2]
             [Scenario.ledgerRow] Scenario.sameNames in
  map gstr2b (common r) = [Scenario.twin 1; Scenario.twin 2] /\
  map purchaseRegister (common r) = [Scenario.ledgerRow; Scenario.ledgerRow] /\
  length [Scenario.ledgerRow] < length (common r) + length (lessInGstr2b r).
Proof.
  exact (shared_counterpart Host.showNumber Host.showDate Host.exactSearch
           (Scenario.twin 1) (Scenario.twin 2) [Scenario.ledgerRow]
           Scenario.sameNames
           {| item := Scenario.ledgerRow; refIndex := 0; score := Some 0%float |}
           [] eq_refl eq_refl eq_refl).
Defined.

Lemma scenario_finds_no_pair_witness :
  (forall o docs q r,
      In r (Host.exactSearch o docs q) ->
      In (item r) docs /\
      forall k, In k (map fst q) -> get (item r) k <> VUndefined) /\
  Host.reconcile [Scenario.sourceRow] [Scenario.targetRow] Scenario.options
  = {| common := [];
       moreInGstr2b := [Scenario.sourceRow];
       lessInGstr2b := [Scenario.targetRow] |}.
Proof.
  split; [exact exactSearch_sound|].
  exact (scenario_finds_no_pair Host.showNumber Host.showDate Host.exactSearch
           exactSearch_sound).
Defined.

Lemma tolerance_policy_witness :
  let p := {| gstr2b := Scenario.twin 1;
              purchaseRegister := Scenario.ledgerRow1200;
              mismatches := [{| field := "amount";
                                gstr2bValue := VNumber 1000%float;
                                purchaseRegisterValue := VNumber 1200%float |}] |} in
  In p (common (Host.reconcile [Scenario.twin 1] [Scenario.ledgerRow1200]
                  Scenario.sameNames)) /\
  In ("amount", "amount") (Object_entries (mappedFields Scenario.sameNames)) /\
  ~ In "amount" (keyFields Scenario.sameNames) /\
  (In {| field := "amount"; gstr2bValue := VNumber 1000%float;
         purchaseRegisterValue := VNumber 1200%float |} (mismatches p)
   <-> PrimFloat.ltb (PrimFloat.abs 1000 * 0.001) (PrimFloat.abs (1000 - 1200))
       = true).
Proof.
  cbn zeta.
  assert (~ In "amount" (keyFields Scenario.sameNames)) as Hk.
  { cbn. intros [H|[]]. discriminate H. }
  pose proof (or_introl eq_refl
              : In {| gstr2b := Scenario.twin 1;
                      purchaseRegister := Scenario.ledgerRow1200;
                      mismatches := [{| field := "amount";
                                gstr2bValue := VNumber 1000%float;
                                purchaseRegisterValue := VNumber 1200%float |}] |}
                  (common (Host.reconcile [Scenario.twin 1]
                             [Scenario.ledgerRow1200] Scenario.sameNames)))
    as Hp.
  pose proof (or_intror (or_introl eq_refl)
              : In ("amount", "amount")
                  (Object_entries (mappedFields Scenario.sameNames))) as Hfg.
  split; [exact Hp|]. split; [exact Hfg|]. split; [exact Hk|].
  exact (proj1 (tolerance_policy Host.showNumber Host.showDate Host.exactSearch)
           _ _ _ _ "amount" "amount" Hp Hfg Hk).
Defined.

Lemma suggestion_rule_witness :
  Host.lowerCase "" = "" /\
  (forall g keyword,
      In g commonKeywords -> In keyword (pr g) -> Host.lowerCase keyword <> "") /\
  In "Invoice Date" ["GSTIN"; "Invoice Date"] /\
  exists g,
    firstSuch
      (fun g => mentions Host.lowerCase "Invoice Date" (gstr g) /\
                exists t, In t ["Date"; "GST No"] /\
                          mentions Host.lowerCase t (pr g))
      commonKeywords g /\
    firstSuch (fun t => mentions Host.lowerCase t (pr g)) ["Date"; "GST No"] "Date".
Proof.
  assert (forall g keyword,
             In g commonKeywords -> In keyword (pr g) ->
             Host.lowerCase keyword <> "") as Hkw.
  { intros g kw Hg Hin. destruct kw; [|discriminate].
    cbn in Hg.
    repeat (destruct Hg as [<-|Hg];
            [cbn in Hin;
             repeat (destruct Hin as [Hin|Hin]; [discriminate Hin|]);
             destruct Hin|]).
    destruct Hg. }
  split; [reflexivity|]. split; [exact Hkw|].
  exact (proj1 (suggestion_rule Host.lowerCase eq_refl Hkw
                  ["GSTIN"; "Invoice Date"] ["Date"; "GST No"]
                  "Invoice Date" "Date") eq_refl).
Defined.

(** * Further properties of the engine *)

#[local] Set Warnings "-clear-no-such-hyp".

Lemma consumedIn_empty rows : forall index, consumedIn ∅ index rows = 0.
Proof.
  induction rows as [|row rows IH]; intros index; cbn; [reflexivity|].
  now rewrite IH.
Qed.

(** Marking one more position consumes one more row exactly when the
    position is new and inside the rows counted. *)
Lemma consumedIn_insert k (M : gset Z) rows : forall index,
  consumedIn ({[ k ]} ∪ M) index rows =
  consumedIn M index rows +
  (if decide ((k ∉ M) /\ (Z.of_nat index <= k < Z.of_nat index + Z.of_nat (length rows))%Z)
   then 1 else 0).
Proof.
  induction rows as [|row rows IH]; intros index; cbn [consumedIn length].
  - destruct (decide _) as [[_ H]|_]; [lia|reflexivity].
  - rewrite IH.
    destruct (decide (k = Z.of_nat index)) as [->|Hne].
    + rewrite (bool_decide_eq_true_2 (Z.of_nat index ∈ {[Z.of_nat index]} ∪ M))
        by set_solver.
      destruct (decide (_ /\ (Z.of_nat (S index) <= _ < _)%Z)) as [[_ H]|_];
        [lia|].
      destruct (bool_decide (Z.of_nat index ∈ M)) eqn:Hin.
      * apply bool_decide_eq_true_1 in Hin.
        destruct (decide _) as [[Hn _]|_]; [contradiction|lia].
      * apply bool_decide_eq_false_1 in Hin.
        destruct (decide _) as [_|Hn]; [lia|].
        exfalso. apply Hn. split; [exact Hin|lia].
    + assert (bool_decide (Z.of_nat index ∈ {[k]} ∪ M)
              = bool_decide (Z.of_nat index ∈ M)) as ->.
      { apply bool_decide_ext. set_solver. }
      destruct (decide ((k ∉ M) /\ (Z.of_nat (S index) <= k
                                  < Z.of_nat (S index) + Z.of_nat (length rows))%Z))
        as [[Hn Hr]|Hno];
        destruct (decide ((k ∉ M) /\ (Z.of_nat index <= k
                                    < Z.of_nat index + Z.of_nat (S (length rows)))%Z))
        as [[Hn' Hr']|Hno']; try lia.
      * exfalso. apply Hno'. split; [exact Hn|lia].
      * exfalso. apply Hno. split; [exact Hn'|lia].
Qed.

Lemma consumedIn_list_le (l : list Z) rows index :
  consumedIn (list_to_set l) index rows <= length l.
Proof.
  induction l as [|k l IH]; cbn [list_to_set length].
  - now rewrite consumedIn_empty.
  - rewrite consumedIn_insert. destruct (decide _); lia.
Qed.

Lemma consumedIn_list_eq (l : list Z) rows index :
  List.NoDup l ->
  (forall k, In k l ->
     (Z.of_nat index <= k < Z.of_nat index + Z.of_nat (length rows))%Z) ->
  consumedIn (list_to_set l) index rows = length l.
Proof.
  induction l as [|k l IH]; intros Hnd Hrange; cbn [list_to_set length].
  - now rewrite consumedIn_empty.
  - inversion Hnd as [|? ? Hk Hnd']; subst.
    rewrite consumedIn_insert, IH; [|exact Hnd'|intros; apply Hrange; now right].
    destruct (decide _) as [_|Hno]; [lia|].
    exfalso. apply Hno. split.
    + rewrite elem_of_list_to_set, list_elem_of_In. exact Hk.
    + apply Hrange. now left.
Qed.

Lemma unconsumed_In (M : gset Z) rows row : forall index,
  In row (unconsumed M index rows) ->
  exists j, nth_error rows j = Some row /\ Z.of_nat (index + j) ∉ M.
Proof.
  induction rows as [|r rows IH]; intros index; cbn; [contradiction|].
  destruct (bool_decide (Z.of_nat index ∈ M)) eqn:Hin.
  - intros H. destruct (IH _ H) as (j & Hj & Hn).
    exists (S j). split; [exact Hj|]. now replace (index + S j) with (S index + j) by lia.
  - apply bool_decide_eq_false_1 in Hin. intros [<-|H].
    + exists 0. split; [reflexivity|]. now rewrite Nat.add_0_r.
    + destruct (IH _ H) as (j & Hj & Hn).
      exists (S j). split; [exact Hj|].
      now replace (index + S j) with (S index + j) by lia.
Qed.

(** With pairwise distinct references, [indexOf] finds the position of a
    row from any row with the same reference. *)
Lemma indexOfFrom_nth rows : forall j row other start,
  List.NoDup (map oid rows) ->
  nth_error rows j = Some row -> oid other = oid row ->
  indexOfFrom rows other start = (start + Z.of_nat j)%Z.
Proof.
  induction rows as [|r rows IH]; intros j row other start Hnd Hj Hoid.
  - destruct j; discriminate.
  - cbn [map] in Hnd. inversion Hnd as [|? ? Hr Hnd']; subst.
    destruct j as [|j]; cbn in Hj |- *.
    + injection Hj as ->. rewrite Hoid, Nat.eqb_refl. lia.
    + destruct (Nat.eqb (oid r) (oid other)) eqn:He.
      * exfalso. apply Nat.eqb_eq in He. apply Hr.
        rewrite He, Hoid. apply in_map. eapply nth_error_In. exact Hj.
      * rewrite (IH j row other (start + 1)%Z Hnd' Hj Hoid). lia.
Qed.

Section EngineExtras.

Variable numberToString : float -> string.
Variable dateToString : float -> string.
Variable search : FuseSearch.

Local Abbreviation run := (performReconciliation numberToString dateToString search).
Local Abbreviation pattern := (searchPattern numberToString dateToString).
Local Abbreviation differ := (valuesDiffer numberToString dateToString).

(** X1. Empty datasets. With no source record the result has no pair and
    every target record is left over; with no target record, and a search
    that finds nothing in an empty collection, every source record is left
    over. *)
Theorem empty_datasets :
  (forall tgt options,
      run [] tgt options
      = {| common := []; moreInGstr2b := []; lessInGstr2b := tgt |}) /\
  ((forall o q, search o [] q = []) ->
   forall src options,
     run src [] options
     = {| common := []; moreInGstr2b := src; lessInGstr2b := [] |}).
Proof.
  split.
  - intros tgt options. rewrite run_closed_form. cbn.
    unfold consumed. cbn. now rewrite unconsumed_none.
  - intros Hnone src options. rewrite run_closed_form.
    apply all_left_over. intros e. unfold matchFor. now rewrite Hnone.
Qed.

(** X2. The target side is never under-counted: the pairs and the left-over
    target records together are at least as many as the target dataset. *)
Theorem target_side_lower_bound src tgt options :
  let r := run src tgt options in
  length tgt <= length (common r) + length (lessInGstr2b r).
Proof.
  cbn zeta. rewrite run_closed_form. cbn [common lessInGstr2b].
  pose proof (unconsumed_length
                (consumed tgt (pairsOf numberToString dateToString search
                                 tgt options src)) tgt 0) as Hlen.
  pose proof (consumedIn_list_le
                (map (fun p => indexOf tgt (purchaseRegister p))
                   (pairsOf numberToString dateToString search tgt options src))
                tgt 0) as Hle.
  rewrite length_map in Hle. unfold consumed in *. lia.
Qed.

(** X3. The target side adds up exactly when the pairs consume pairwise
    distinct positions of the target dataset. *)
Theorem target_side_exact src tgt options :
  let r := run src tgt options in
  let position p := indexOf tgt (purchaseRegister p) in
  List.NoDup (map position (common r)) ->
  (forall p, In p (common r) ->
             (0 <= position p < Z.of_nat (length tgt))%Z) ->
  length (common r) + length (lessInGstr2b r) = length tgt.
Proof.
  cbn zeta. rewrite run_closed_form. cbn [common lessInGstr2b].
  intros Hnd Hrange.
  pose proof (unconsumed_length
                (consumed tgt (pairsOf numberToString dateToString search
                                 tgt options src)) tgt 0) as Hlen.
  unfold consumed in *.
  rewrite (consumedIn_list_eq _ tgt 0 Hnd) in Hlen.
  - rewrite length_map in Hlen. lia.
  - intros k Hk. apply in_map_iff in Hk as (p & <- & Hp).
    specialize (Hrange p Hp). lia.
Qed.

(** X4. When the target rows are pairwise distinct objects, the counterpart
    of a pair is never also reported in [lessInGstr2b]. *)
Theorem counterpart_not_left_over src tgt options :
  List.NoDup (map oid tgt) ->
  let r := run src tgt options in
  forall p row,
    In p (common r) -> In row (lessInGstr2b r) ->
    oid row <> oid (purchaseRegister p).
Proof.
  intros Hnd. cbn zeta. rewrite run_closed_form. cbn [common lessInGstr2b].
  intros p row Hp Hrow Hoid.
  apply unconsumed_In in Hrow as (j & Hj & Hout).
  apply Hout. unfold consumed.
  rewrite elem_of_list_to_set, list_elem_of_In. apply in_map_iff.
  exists p. split; [|exact Hp].
  unfold indexOf.
  rewrite (indexOfFrom_nth tgt j row (purchaseRegister p) 0%Z Hnd Hj);
    [lia|congruence].
Qed.

Lemma mismatch_fields_in_order options e b entries : forall acc,
  exists added,
    map field (fold_left (compareField numberToString dateToString options e b)
                 entries acc)
    = map field acc ++ added /\
    sublist added (map fst entries).
Proof.
  induction entries as [|[f g] entries IH]; intros acc; cbn [fold_left map fst].
  - exists []. rewrite app_nil_r. split; [reflexivity|constructor].
  - rewrite compareField_cases.
    destruct (Array_includes (keyFields options) f).
    + destruct (IH acc) as (added & Heq & Hsub).
      exists added. split; [exact Heq|]. now constructor.
    + destruct (valuesDiffer _ _ _ _).
      * destruct (IH (acc ++ [{| field := f; gstr2bValue := get e f;
                                 purchaseRegisterValue := get b g |}]))
          as (added & Heq & Hsub).
        exists (f :: added). rewrite Heq, map_app, <- app_assoc.
        split; [reflexivity|]. now constructor.
      * destruct (IH acc) as (added & Heq & Hsub).
        exists added. split; [exact Heq|]. now constructor.
Qed.

(** X5. The mismatches of a pair are listed in the order of the mapping's
    entries: their field names are a subsequence of the mapping's source
    fields. *)
Theorem mismatches_follow_mapping_order src tgt options p :
  In p (common (run src tgt options)) ->
  sublist (map field (mismatches p)) (map fst (mappedFields options)).
Proof.
  intros Hp. rewrite (common_mismatches _ _ _ _ _ _ _ Hp).
  unfold findMismatches, Object_entries.
  destruct (mismatch_fields_in_order options (gstr2b p) (purchaseRegister p)
              (mappedFields options) []) as (added & -> & Hsub).
  exact Hsub.
Qed.

(** X6. The status badge of a row of the results table reads [Matched]
    exactly when every mapped field outside the key fields agrees under the
    comparison policy, and [Mismatch] otherwise. *)
Theorem badge_matched_iff_fields_agree src tgt options p :
  In p (common (run src tgt options)) ->
  (statusBadge p = "Matched" <->
   forall f g, In (f, g) (Object_entries (mappedFields options)) ->
               ~ In f (keyFields options) ->
               differ (get (gstr2b p) f) (get (purchaseRegister p) g) = false)
  /\ (statusBadge p = "Matched" \/ statusBadge p = "Mismatch").
Proof.
  intros Hp. unfold statusBadge.
  pose proof (fun m => findMismatches_In numberToString dateToString options
                         (gstr2b p) (purchaseRegister p) m) as Hin.
  rewrite <- (common_mismatches _ _ _ _ _ _ _ Hp) in Hin.
  destruct (mismatches p) as [|m ms]; cbn.
  - split; [|now left]. split; [|reflexivity].
    intros _ f g Hfg Hk.
    destruct (differ (get (gstr2b p) f) (get (purchaseRegister p) g)) eqn:Hd;
      [|reflexivity].
    exfalso.
    apply (proj2 (Hin {| field := f; gstr2bValue := get (gstr2b p) f;
                         purchaseRegisterValue := get (purchaseRegister p) g |})).
    exists f, g. auto.
  - split; [|now right]. split; [discriminate|].
    intros Hall. exfalso.
    destruct (proj1 (Hin m) (or_introl eq_refl)) as (f & g & Hfg & Hk & Hd & _).
    rewrite (Hall f g Hfg Hk) in Hd. discriminate.
Qed.

(** X7. When every mapped field is a key field, no pair carries a mismatch
    and the mismatch card counts none. *)
Theorem only_key_fields_mapped src tgt options :
  (forall f g, In (f, g) (Object_entries (mappedFields options)) ->
               In f (keyFields options)) ->
  let r := run src tgt options in
  Forall (fun p => mismatches p = []) (common r) /\
  getTotalMismatchCount (common r) = 0.
Proof.
  intros Hkeys. cbn zeta.
  assert (Forall (fun p => mismatches p = []) (common (run src tgt options)))
    as Hall.
  { apply List.Forall_forall. intros p Hp.
    destruct (mismatches p) as [|m ms] eqn:Hm; [reflexivity|exfalso].
    assert (In m (mismatches p)) as Hin by (rewrite Hm; now left).
    rewrite (common_mismatches _ _ _ _ _ _ _ Hp) in Hin.
    apply findMismatches_In in Hin as (f & g & Hfg & Hk & _).
    exact (Hk (Hkeys f g Hfg)). }
  split; [exact Hall|].
  unfold getTotalMismatchCount.
  induction Hall as [|p ps Hp _ IH]; cbn; [reflexivity|].
  now rewrite Hp.
Qed.



(** X9. A click on an enabled Reconcile button always reaches the engine,
    with the options of the page; and whenever the click reaches the
    engine, both datasets and the key-field list are non-empty. *)
Theorem click_reaches_engine src tgt t keys mapping :
  (reconcileDisabled (negb (canReconcile src tgt keys mapping)) keys = false ->
   handleReconcile numberToString dateToString search src tgt t keys mapping
   = ReconciliationComplete
       (run src tgt {| matchingThreshold := t; keyFields := keys;
                       mappedFields := mapping |})) /\
  (forall r,
      handleReconcile numberToString dateToString search src tgt t keys mapping
      = ReconciliationComplete r ->
      src <> [] /\ tgt <> [] /\ keys <> []).
Proof.
  unfold handleReconcile, reconcileDisabled, canReconcile. split.
  - destruct src, tgt, keys; cbn; try discriminate;
      rewrite ?andb_false_r; cbn; try discriminate. reflexivity.
  - intros r. destruct src, tgt, keys; cbn; try discriminate. auto.
Qed.

End EngineExtras.

(** * Summaries and the export row *)

Lemma append_assoc3 a b c : ((a +:+ b) +:+ c) = (a +:+ (b +:+ c)).
Proof.
  induction a as [|x a IH]; rewrite ?append_empty, ?append_cons;
    [reflexivity|now rewrite IH].
Qed.

Lemma append_same_prefix p a b : (p +:+ a) = (p +:+ b) -> a = b.
Proof.
  induction p as [|x p IH]; rewrite ?append_empty, ?append_cons;
    [trivial|]. intros [= H]. exact (IH H).
Qed.

(** A text with a colon in it is non-empty and is none of the fixed texts. *)
Lemma colon_inside before after :
  String_includes (before +:+ ":" +:+ after) ":" = true.
Proof. apply String_includes_occurs. now exists before, after. Qed.

Lemma join_includes sep part rest c :
  String_includes part c = true ->
  String_includes (join sep (part :: rest)) c = true.
Proof.
  intros Hc. apply String_includes_occurs in Hc as (a & b & ->).
  apply String_includes_occurs. cbn [join]. destruct rest as [|q rest].
  - now exists a, b.
  - exists a, (b +:+ sep +:+ join sep (q :: rest)).
    now rewrite !append_assoc3.
Qed.

Section RenderingFacts.

Variable numberToString : float -> string.
Variable dateToString : float -> string.

Local Abbreviation summary := (generateMismatchSummary numberToString dateToString).
Local Abbreviation cell := (summaryCell numberToString dateToString).
Local Abbreviation exported := (exportSummary numberToString dateToString).
Local Abbreviation row := (combinedRow numberToString dateToString).

Lemma summary_has_colon m ms :
  String_includes (summary (m :: ms)) ":" = true.
Proof.
  unfold generateMismatchSummary. cbn [length Nat.eqb map].
  apply join_includes.
  change (" mismatch: " +:+ ?x) with (" mismatch" +:+ ":" +:+ " " +:+ x).
  rewrite <- append_assoc3. apply colon_inside.
Qed.

(** X10. [generateMismatchSummary] answers [No mismatches] for the empty
    list only; the summary cell of the results table reads
    [All fields match] exactly for a pair without mismatch, and never
    [No mismatches]. *)
Theorem summary_texts :
  (forall ms,
      generateMismatchSummary numberToString dateToString ms = "No mismatches"
      <-> ms = []) /\
  (forall p,
      summaryCell numberToString dateToString p = "All fields match"
      <-> mismatches p = []) /\
  (forall p, summaryCell numberToString dateToString p <> "No mismatches").
Proof.
  assert (forall m ms fixed,
             String_includes fixed ":" = false -> summary (m :: ms) <> fixed)
    as Hfixed.
  { intros m ms fixed Hf Heq.
    pose proof (summary_has_colon m ms) as Hc. rewrite Heq in Hc. congruence. }
  split; [|split].
  - intros [|m ms]; [split; reflexivity|].
    split; [|discriminate]. intros Heq. exfalso.
    exact (Hfixed m ms "No mismatches" eq_refl Heq).
  - intros p. unfold summaryCell.
    destruct (mismatches p) as [|m ms]; cbn [length Nat.ltb Nat.leb];
      [split; reflexivity|].
    split; [|discriminate]. intros Heq. exfalso.
    exact (Hfixed m ms "All fields match" eq_refl Heq).
  - intros p. unfold summaryCell.
    destruct (mismatches p) as [|m ms]; cbn [length Nat.ltb Nat.leb];
      [discriminate|].
    exact (Hfixed m ms "No mismatches" eq_refl).
Qed.

(** X11. The [Mismatch Summary] column of the export reads [No mismatches]
    exactly for a pair without mismatch. *)
Theorem export_summary_text p :
  exportSummary numberToString dateToString p = "No mismatches"
  <-> mismatches p = [].
Proof.
  unfold exportSummary. destruct (mismatches p) as [|m ms].
  - split; reflexivity.
  - split; [|discriminate].
    match goal with
    | |- (if truthy ?j then _ else _) = _ -> _ =>
        assert (String_includes j ":" = true) as Hc
    end.
    { cbn [map]. apply join_includes.
      change (": " +:+ ?x) with (":" +:+ " " +:+ x).
      apply colon_inside. }
    match goal with
    | |- (if truthy ?j then _ else _) = _ -> _ => destruct j eqn:Hj
    end; [discriminate Hc|].
    cbn [truthy]. intros Heq. rewrite Heq in Hc. discriminate Hc.
Qed.

End RenderingFacts.

Lemma getOwn_absent {A : Type} (d : Dict A) k :
  ~ In k (map fst d) -> getOwn d k = None.
Proof.
  induction d as [|[k0 v0] d IH]; cbn; [reflexivity|]. intros Hn.
  destruct (String.eqb k0 k) eqn:Hk.
  - apply String.eqb_eq in Hk. exfalso. apply Hn. now left.
  - apply IH. intros Hin. apply Hn. now right.
Qed.

Lemma fold_prefix_lookup {A : Type} pre (d : Dict A) : forall acc k,
  List.NoDup (map fst d) ->
  getOwn (fold_left (fun row kv => setProp row (pre +:+ fst kv) (snd kv)) d acc)
    (pre +:+ k)
  = match getOwn d k with
    | Some v => Some v
    | None => getOwn acc (pre +:+ k)
    end.
Proof.
  induction d as [|[k0 v0] d IH]; intros acc k Hnd; cbn [fold_left getOwn fst snd];
    [reflexivity|].
  cbn [map fst] in Hnd. inversion Hnd as [|? ? Hk0 Hnd']; subst.
  rewrite (IH _ _ Hnd').
  destruct (String.eqb k0 k) eqn:Hk.
  - apply String.eqb_eq in Hk. subst k0.
    now rewrite (getOwn_absent d k Hk0), getOwn_setProp_same.
  - apply String.eqb_neq in Hk.
    destruct (getOwn d k); [reflexivity|].
    apply getOwn_setProp_other. intros Heq.
    apply append_same_prefix in Heq. congruence.
Qed.

Lemma fold_prefix_other {A : Type} pre (d : Dict A) : forall acc key,
  (forall k, key <> (pre +:+ k)) ->
  getOwn (fold_left (fun row kv => setProp row (pre +:+ fst kv) (snd kv)) d acc)
    key
  = getOwn acc key.
Proof.
  induction d as [|[k0 v0] d IH]; intros acc key Hkey; cbn [fold_left fst snd];
    [reflexivity|].
  rewrite (IH _ _ Hkey). apply getOwn_setProp_other. apply Hkey.
Qed.

Lemma append_first_differs c a x d b y :
  c <> d -> (String c a +:+ x) <> (String d b +:+ y).
Proof. rewrite !append_cons. congruence. Qed.

Section ExportRow.

Variable numberToString : float -> string.
Variable dateToString : float -> string.

Local Abbreviation exported := (exportSummary numberToString dateToString).
Local Abbreviation row := (combinedRow numberToString dateToString).

(** X12. The export row of a pair, for records with distinct property
    names: the column [GSTR-2B: k] holds the source record's cell [k], the
    column [PR: k] holds the target record's cell [k] (and either is absent
    when the record has no such cell), and [Mismatch Summary] holds the
    summary; the three families of columns never overwrite one another. *)
Theorem export_row_lookup p :
  List.NoDup (map fst (props (gstr2b p))) ->
  List.NoDup (map fst (props (purchaseRegister p))) ->
  (forall k, getOwn (row p) ("GSTR-2B: " +:+ k) = getOwn (props (gstr2b p)) k) /\
  (forall k, getOwn (row p) ("PR: " +:+ k) = getOwn (props (purchaseRegister p)) k) /\
  getOwn (row p) "Mismatch Summary" = Some (VString (exported p)).
Proof.
  intros Hsrc Htgt. unfold combinedRow, Object_entries. cbn zeta.
  split; [|split].
  - intros k.
    rewrite getOwn_setProp_other
      by (change "Mismatch Summary" with ("Mismatch Summary" +:+ "");
          now apply append_first_differs).
    rewrite fold_prefix_other
      by (intros k'; now apply append_first_differs).
    rewrite (fold_prefix_lookup _ _ _ _ Hsrc).
    now destruct (getOwn (props (gstr2b p)) k).
  - intros k.
    rewrite getOwn_setProp_other
      by (change "Mismatch Summary" with ("Mismatch Summary" +:+ "");
          now apply append_first_differs).
    rewrite (fold_prefix_lookup _ _ _ _ Htgt).
    destruct (getOwn (props (purchaseRegister p)) k); [reflexivity|].
    rewrite fold_prefix_other
      by (intros k'; now apply append_first_differs).
    reflexivity.
  - apply getOwn_setProp_same.
Qed.

End ExportRow.

(** * Further properties of the mapping suggestion *)

Lemma setProp_NoDup {A : Type} (o : Dict A) k v :
  List.NoDup (map fst o) -> List.NoDup (map fst (setProp o k v)).
Proof.
  induction o as [|[k0 v0] o IH]; cbn; intros Hnd.
  - constructor; [intros []|constructor].
  - inversion Hnd as [|? ? Hk0 Hnd']; subst.
    destruct (String.eqb k0 k) eqn:Hk; cbn; [exact Hnd|].
    constructor; [|exact (IH Hnd')].
    rewrite setProp_keys. intros [Hin| ->]; [contradiction|].
    rewrite String.eqb_refl in Hk. discriminate.
Qed.

Lemma setProp_In {A : Type} (o : Dict A) k v k' v' :
  In (k', v') (setProp o k v) -> In (k', v') o \/ (k' = k /\ v' = v).
Proof.
  induction o as [|[k0 v0] o IH]; cbn.
  - intros [[= <- <-]|[]]. now right.
  - destruct (String.eqb k0 k) eqn:Hk; cbn.
    + apply String.eqb_eq in Hk. subst k0.
      intros [[= <- <-]|Hin]; [now right|left; now right].
    + intros [Heq|Hin]; [left; now left|].
      destruct (IH Hin) as [H|H]; [left; now right|now right].
Qed.

Lemma setProp_length {A : Type} (o : Dict A) k v :
  length (setProp o k v) <= S (length o).
Proof.
  induction o as [|[k0 v0] o IH]; cbn; [lia|].
  destruct (String.eqb k0 k); cbn; lia.
Qed.

Section SuggestExtras.

Variable toLowerCase : string -> string.

Local Abbreviation scan := (scanKeywordSets toLowerCase).
Local Abbreviation suggest := (suggestColumnMappings toLowerCase).

Lemma scan_target lower targets sets t :
  scan lower targets sets = Some t -> In t targets.
Proof.
  induction sets as [|g sets IH]; cbn [scanKeywordSets]; [discriminate|].
  destruct (containsKeyword toLowerCase lower (gstr g)); [|exact IH].
  destruct (findPrHeader toLowerCase targets g) as [t0|] eqn:Hfind; [|exact IH].
  destruct (truthy t0); [|exact IH].
  intros [= <-]. unfold findPrHeader in Hfind.
  now apply find_some in Hfind as [Hin _].
Qed.

Lemma scan_no_targets lower sets : scan lower [] sets = None.
Proof.
  induction sets as [|g sets IH]; cbn [scanKeywordSets]; [reflexivity|].
  destruct (containsKeyword toLowerCase lower (gstr g)); exact IH.
Qed.

Lemma suggest_invariant targets sources : forall acc,
  List.NoDup (map fst acc) ->
  let m := fold_left (suggestForHeader toLowerCase targets) sources acc in
  List.NoDup (map fst m) /\
  (forall h t, In (h, t) m ->
               In (h, t) acc \/ (In h sources /\ In t targets)) /\
  length m <= length acc + length sources.
Proof.
  induction sources as [|h0 sources IH]; intros acc Hnd; cbn [fold_left].
  - cbn. repeat split; [exact Hnd|auto|lia].
  - assert (List.NoDup (map fst (suggestForHeader toLowerCase targets acc h0)))
      as Hnd'.
    { unfold suggestForHeader. destruct (scan _ _ _); [|exact Hnd].
      now apply setProp_NoDup. }
    destruct (IH _ Hnd') as (H1 & H2 & H3). cbn zeta. split; [exact H1|]. split.
    + intros h t Hin. destruct (H2 h t Hin) as [Hacc|[Hh Ht]].
      * unfold suggestForHeader in Hacc.
        destruct (scan (toLowerCase h0) targets commonKeywords) as [t0|] eqn:Hs;
          [|now left].
        apply setProp_In in Hacc as [Hacc|[-> ->]]; [now left|].
        right. split; [now left|]. exact (scan_target _ _ _ _ Hs).
      * right. split; [now right|exact Ht].
    + assert (length (suggestForHeader toLowerCase targets acc h0)
              <= S (length acc)) as Hl.
      { unfold suggestForHeader. destruct (scan _ _ _); [|lia].
        apply setProp_length. }
      cbn [length]. lia.
Qed.

(** X13. The suggested mapping is well formed: no source header is mapped
    twice, every pair joins a source header to a target header, and there
    are at most as many pairs as source headers; without target headers, or
    without source headers, nothing is suggested. *)
Theorem suggestion_well_formed sources targets :
  List.NoDup (map fst (suggestColumnMappings toLowerCase sources targets)) /\
  (forall h t,
      In (h, t) (suggestColumnMappings toLowerCase sources targets) ->
      In h sources /\ In t targets) /\
  length (suggestColumnMappings toLowerCase sources targets) <= length sources /\
  suggestColumnMappings toLowerCase sources [] = [] /\
  suggestColumnMappings toLowerCase [] targets = [].
Proof.
  destruct (suggest_invariant targets sources [] (List.NoDup_nil _))
    as (H1 & H2 & H3).
  split; [exact H1|]. split; [|split; [exact H3|split; [|reflexivity]]].
  - intros h t Hin. destruct (H2 h t Hin) as [[]|H]. exact H.
  - unfold suggestColumnMappings. clear H1 H2 H3.
    assert (forall acc, fold_left (suggestForHeader toLowerCase []) sources acc
                        = acc) as Hfold.
    { induction sources as [|h0 srcs IH]; intros acc; cbn [fold_left];
        [reflexivity|].
      rewrite IH. unfold suggestForHeader. now rewrite scan_no_targets. }
    apply Hfold.
Qed.

(** X14. What is suggested for a header depends on that header and the
    target headers only: it is the outcome of the group scan for the
    header, whatever the other source headers are, in whatever order and
    however often they occur. *)
Theorem suggestion_per_header sources targets h :
  getOwn (suggest sources targets) h
  = if in_dec string_dec h sources
    then scan (toLowerCase h) targets commonKeywords
    else None.
Proof.
  pose proof (fun t => suggest_fold toLowerCase targets h t sources [])
    as Hfold.
  cbn [getOwn] in Hfold. fold (suggest sources targets) in Hfold.
  destruct (getOwn (suggest sources targets) h) as [t|] eqn:Hget.
  - destruct (proj1 (Hfold t) eq_refl) as [[Hin Hscan]|[_ [=]]].
    destruct (in_dec string_dec h sources); [now rewrite Hscan|contradiction].
  - destruct (in_dec string_dec h sources) as [Hin|Hnin]; [|reflexivity].
    destruct (scan (toLowerCase h) targets commonKeywords) as [t|] eqn:Hscan;
      [|reflexivity].
    assert (@None string = Some t) as Habs
      by (apply (proj2 (Hfold t)); left; auto).
    discriminate Habs.
Qed.

End SuggestExtras.

Section GstHeaders.

Variable toLowerCase : string -> string.
Hypothesis lower_empty : toLowerCase "" = "".
Hypothesis keywords_not_empty :
  forall g keyword,
    In g commonKeywords -> In keyword (pr g) -> toLowerCase keyword <> "".

(** X15. A source header that contains [gst] in any case, which includes
    the IGST, CGST and SGST columns, is decided by the first keyword group:
    it is mapped to the first target header that contains [gstin] or [gst],
    whenever there is one. The groups [igst], [cgst] and [sgst] are not
    consulted for it. *)
Theorem gst_header_takes_first_gst_target sources targets h t :
  In h sources ->
  occursIn (toLowerCase "gst") (toLowerCase h) ->
  firstSuch (fun t => mentions toLowerCase t ["gstin"; "gst"]) targets t ->
  getOwn (suggestColumnMappings toLowerCase sources targets) h = Some t.
Proof.
  intros Hin Hgst Hfirst.
  apply (suggest_fold toLowerCase targets h t sources []). left.
  split; [exact Hin|].
  unfold commonKeywords.
  match goal with
  | |- scanKeywordSets _ _ _ (?g :: ?rest) = _ =>
      set (first := g); set (others := rest)
  end.
  cbn [scanKeywordSets].
  assert (containsKeyword toLowerCase (toLowerCase h) (gstr first) = true) as ->.
  { apply containsKeyword_mentions. exists "gst". split; [|exact Hgst].
    right. now left. }
  assert (findPrHeader toLowerCase targets first = Some t) as Hfind
    by now apply findPrHeader_first.
  rewrite Hfind.
  rewrite (found_header_truthy toLowerCase lower_empty keywords_not_empty
             targets first t (or_introl eq_refl) Hfind).
  reflexivity.
Qed.

End GstHeaders.

(** * The column-mapping editor *)









Lemma truthy_nonempty s : truthy s = true <-> s <> "".
Proof. destruct s; cbn; split; congruence. Qed.

Lemma snoc_split {A : Type} (l : list A) x before m after :
  l ++ [x] = before ++ m :: after ->
  (after = [] /\ before = l /\ m = x) \/
  (exists after', after = after' ++ [x] /\ l = before ++ m :: after').
Proof.
  intros Heq. induction after as [|y after' _] using rev_ind.
  - left. apply (app_inj_tail l before x m) in Heq as [-> ->]. auto.
  - right. change (l ++ [x] = before ++ (m :: after') ++ [y]) in Heq.
    rewrite app_assoc in Heq. apply app_inj_tail in Heq as [-> ->].
    now exists after'.
Qed.

(** The last element of a list with a decidable property, when there is
    one. *)
Lemma last_such {A : Type} (P : A -> bool) (l : list A) :
  (exists x, In x l /\ P x = true) ->
  exists before x after,
    l = before ++ x :: after /\ P x = true /\
    forall y, In y after -> P y = false.
Proof.
  induction l as [|a l IH]; intros (x & Hin & Hx); [contradiction|].
  destruct (existsb P l) eqn:Hex.
  - apply existsb_exists in Hex. destruct (IH Hex) as (b & y & c & -> & Hy & Hc).
    now exists (a :: b), y, c.
  - exists [], a, l. split; [reflexivity|].
    assert (forall y, In y l -> P y = false) as Hl.
    { intros y Hy. destruct (P y) eqn:Hp; [|reflexivity].
      assert (existsb P l = true) by (apply existsb_exists; eauto). congruence. }
    split; [|exact Hl].
    destruct Hin as [->|Hin]; [exact Hx|]. rewrite (Hl x Hin) in Hx. discriminate.
Qed.

Section ColumnMappingFacts.

Import ColumnMapping.

Lemma mappingObject_snoc ms m :
  mappingObject (ms ++ [m]) =
  if truthy (gstr2b m) && truthy (pr m)
  then setProp (mappingObject ms) (gstr2b m) (pr m)
  else mappingObject ms.
Proof. unfold mappingObject. now rewrite fold_left_app. Qed.

(** The mapping object holds, for a column, the target of the last row
    that names the column and has a target. *)
Lemma mappingObject_lookup ms : forall k v,
  getOwn (mappingObject ms) k = Some v <->
  exists before m after,
    ms = before ++ m :: after /\
    gstr2b m = k /\ pr m = v /\ truthy k = true /\ truthy v = true /\
    forall m', In m' after -> gstr2b m' = k -> truthy (pr m') = false.
Proof.
  induction ms as [|x ms IH] using rev_ind; intros k v.
  - cbn. split; [discriminate|].
    intros ([|b0 before] & m & after & [=] & _).
  - rewrite mappingObject_snoc.
    assert ((exists before m after,
               ms ++ [x] = before ++ m :: after /\
               gstr2b m = k /\ pr m = v /\ truthy k = true /\ truthy v = true /\
               forall m', In m' after -> gstr2b m' = k -> truthy (pr m') = false)
            <-> (gstr2b x = k /\ pr x = v /\ truthy k = true /\ truthy v = true)
                \/ ((gstr2b x = k -> truthy (pr x) = false) /\
                    getOwn (mappingObject ms) k = Some v)) as ->.
    { rewrite IH. split.
      - intros (before & m & after & Hsplit & Hk & Hv & Htk & Htv & Hafter).
        apply snoc_split in Hsplit as [(-> & -> & ->)|(after' & -> & ->)].
        + left. auto.
        + right. split.
          * apply Hafter. apply in_or_app. right. now left.
          * exists before, m, after'. repeat split; try assumption.
            intros m' Hm'. apply Hafter. apply in_or_app. now left.
      - intros [(Hk & Hv & Htk & Htv)|(Hx & before & m & after & -> & Hk & Hv & Htk & Htv & Hafter)].
        + exists ms, x, []. repeat split; try assumption. intros m' [].
        + exists before, m, (after ++ [x]). rewrite <- app_assoc.
          repeat split; try assumption.
          intros m' Hm'. apply in_app_or in Hm' as [Hm'|[<-|[]]];
            [now apply Hafter|exact Hx]. }
    destruct (truthy (gstr2b x)) eqn:Hgx; destruct (truthy (pr x)) eqn:Hpx;
      cbn [andb].
    1: { destruct (string_dec (gstr2b x) k) as [Hk|Hk].
         - subst k. rewrite getOwn_setProp_same. split.
           + intros [= <-]. left. auto.
           + intros [(_ & <- & _)|[Hno _]]; [reflexivity|].
             pose proof (Hno eq_refl). congruence.
         - rewrite getOwn_setProp_other by congruence. split.
           + intros Hget. right. split; [intros; contradiction|exact Hget].
           + intros [(Hk' & _)|[_ Hget]]; [contradiction|exact Hget]. }
    all: split;
      [ intros Hget; right; split; [|exact Hget];
        intros Hk; try reflexivity;
        apply IH in Hget as (_ & _ & _ & _ & _ & _ & Htk & _);
        subst k; congruence
      | intros [(Hk & Hv & Htk & Htv)|[_ Hget]];
        [exfalso; subst k v; congruence|exact Hget] ].
Qed.

(** A column is mapped as soon as one row names it with a target. *)
Lemma mapped_if_some_target ms k :
  truthy k = true ->
  (exists m, In m ms /\ gstr2b m = k /\ truthy (pr m) = true) ->
  exists v, getOwn (mappingObject ms) k = Some v.
Proof.
  intros Hk (m & Hin & Hm & Hp).
  destruct (last_such (fun m => String.eqb (gstr2b m) k && truthy (pr m)) ms)
    as (before & x & after & -> & Hx & Hafter).
  { exists m. split; [exact Hin|]. subst k. now rewrite String.eqb_refl. }
  apply andb_true_iff in Hx as [Hxk Hxp]. apply String.eqb_eq in Hxk.
  exists (pr x). apply mappingObject_lookup.
  exists before, x, after. repeat split; try assumption.
  intros m' Hm' Hk'. specialize (Hafter m' Hm').
  rewrite Hk', String.eqb_refl in Hafter. exact Hafter.
Qed.

Lemma keyFieldsOf_In ms k :
  In k (keyFieldsOf ms) <->
  exists m, In m ms /\ gstr2b m = k /\ isKey m = true /\ truthy k = true.
Proof.
  unfold keyFieldsOf. rewrite in_map_iff. split.
  - intros (m & <- & Hin). apply filter_In in Hin as [Hin Hc].
    apply andb_true_iff in Hc as [Hkey Ht]. exists m. auto.
  - intros (m & Hin & <- & Hkey & Ht). exists m. split; [reflexivity|].
    apply filter_In. split; [exact Hin|]. now rewrite Hkey, Ht.
Qed.

(** X17. When several rows of the editor name the same GSTR-2B column, the
    mapping object keeps the target of the last of them that has a target;
    rows with a blank column or a blank target contribute nothing. *)
Theorem later_row_wins ms k v :
  getOwn (mappingObject ms) k = Some v <->
  exists before m after,
    ms = before ++ m :: after /\
    gstr2b m = k /\ pr m = v /\ k <> "" /\ v <> "" /\
    forall m', In m' after -> gstr2b m' = k -> pr m' = "".
Proof.
  rewrite mappingObject_lookup. split;
    intros (before & m & after & Hsplit & Hk & Hv & Htk & Htv & Hafter);
    exists before, m, after; repeat split; try assumption.
  - now apply truthy_nonempty.
  - now apply truthy_nonempty.
  - intros m' Hm' Hk'. specialize (Hafter m' Hm' Hk').
    destruct (pr m'); [reflexivity|discriminate].
  - now apply truthy_nonempty.
  - now apply truthy_nonempty.
  - intros m' Hm' Hk'. now rewrite (Hafter m' Hm' Hk').
Qed.

(** X18. The key fields are the non-blank columns of the rows switched to
    key. A key field is a property of the mapping object exactly when some
    row naming that column has a target: the editor can hand over a key
    field that the mapping does not cover. *)
Theorem key_field_covered_iff_target ms k :
  In k (keyFieldsOf ms) ->
  k <> "" /\
  ((exists v, getOwn (mappingObject ms) k = Some v) <->
   exists m, In m ms /\ gstr2b m = k /\ pr m <> "").
Proof.
  intros Hkey. apply keyFieldsOf_In in Hkey as (m0 & _ & _ & _ & Htk).
  split; [now apply truthy_nonempty|]. split.
  - intros (v & Hget).
    apply mappingObject_lookup in Hget
      as (before & m & after & -> & Hk & Hv & _ & Htv & _).
    exists m. split; [apply in_or_app; right; now left|].
    split; [exact Hk|]. apply truthy_nonempty. now rewrite Hv.
  - intros (m & Hin & Hk & Hp). apply mapped_if_some_target; [exact Htk|].
    exists m. split; [exact Hin|]. split; [exact Hk|].
    now apply truthy_nonempty.
Qed.

(** X19. Adding a row changes nothing of what the parent has been given:
    the blank row contributes neither a mapping nor a key field. *)
Theorem blank_row_is_invisible ms :
  updateParentComponents (addMapping ms) = updateParentComponents ms.
Proof.
  unfold updateParentComponents, addMapping. f_equal.
  - now rewrite mappingObject_snoc.
  - unfold keyFieldsOf. rewrite List.filter_app. cbn. now rewrite app_nil_r.
Qed.

Lemma removeMapping_sublist ms : forall index,
  sublist (removeMapping ms index) ms.
Proof.
  unfold removeMapping.
  induction ms as [|m ms IH]; intros [|index]; cbn.
  - constructor.
  - constructor.
  - apply sublist_cons. reflexivity.
  - apply sublist_skip, IH.
Qed.

Lemma sublist_In_std {A : Type} (l1 l2 : list A) x :
  sublist l1 l2 -> In x l1 -> In x l2.
Proof.
  induction 1 as [|y l1 l2 _ IH|y l1 l2 _ IH]; cbn; [tauto| |]; intuition.
Qed.

(** X20. Removing a row never adds anything: an index outside the rows
    removes nothing, the key fields of the remaining rows are a subsequence
    of the former key fields, and every column still mapped was mapped
    before. *)
Theorem removing_a_row_only_removes ms index :
  (length ms <= index -> removeMapping ms index = ms) /\
  sublist (keyFieldsOf (removeMapping ms index)) (keyFieldsOf ms) /\
  (forall k v,
      getOwn (mappingObject (removeMapping ms index)) k = Some v ->
      exists v', getOwn (mappingObject ms) k = Some v').
Proof.
  split; [|split].
  - intros Hlen. unfold removeMapping.
    rewrite firstn_all2 by exact Hlen.
    rewrite skipn_all2 by lia. apply app_nil_r.
  - unfold keyFieldsOf.
    pose proof (removeMapping_sublist ms index) as Hsub.
    induction Hsub as [|y l1 l2 _ IH|y l1 l2 _ IH]; cbn [List.filter map].
    + constructor.
    + destruct (isKey y && truthy (gstr2b y)); cbn [map];
        [now apply sublist_skip|exact IH].
    + destruct (isKey y && truthy (gstr2b y)); cbn [map];
        [now apply sublist_cons|exact IH].
  - intros k v Hget.
    apply mappingObject_lookup in Hget
      as (before & m & after & Hsplit & Hk & Hv & Htk & Htv & _).
    apply mapped_if_some_target; [exact Htk|].
    exists m. split; [|split; [exact Hk|now rewrite Hv]].
    apply (sublist_In_std _ _ m (removeMapping_sublist ms index)).
    rewrite Hsplit. apply in_or_app. right. now left.
Qed.

End ColumnMappingFacts.

Lemma In_getOwn {A : Type} (d : Dict A) k v :
  List.NoDup (map fst d) -> In (k, v) d -> getOwn d k = Some v.
Proof.
  induction d as [|[k0 v0] d IH]; cbn; intros Hnd Hin; [contradiction|].
  inversion Hnd as [|? ? Hk0 Hnd']; subst.
  destruct Hin as [[= -> ->]|Hin]; [now rewrite String.eqb_refl|].
  destruct (String.eqb k0 k) eqn:Hk; [|now apply IH].
  apply String.eqb_eq in Hk. subst k0. exfalso. apply Hk0.
  change k with (fst (k, v)). now apply in_map.
Qed.

Lemma getOwn_split {A : Type} (d : Dict A) k v :
  List.NoDup (map fst d) -> getOwn d k = Some v ->
  exists d1 d2, d = d1 ++ (k, v) :: d2 /\ ~ In k (map fst d2).
Proof.
  induction d as [|[k0 v0] d IH]; cbn; intros Hnd Hget; [discriminate|].
  inversion Hnd as [|? ? Hk0 Hnd']; subst.
  destruct (String.eqb k0 k) eqn:Hk.
  - apply String.eqb_eq in Hk. subst k0. injection Hget as ->.
    now exists [], d.
  - destruct (IH Hnd' Hget) as (d1 & d2 & -> & Hd2).
    now exists ((k0, v0) :: d1), d2.
Qed.

Section AutoSuggestFacts.

Import ColumnMapping.

Variable toLowerCase : string -> string.
Hypothesis lower_empty : toLowerCase "" = "".
Hypothesis source_keywords_not_empty :
  forall g keyword,
    In g commonKeywords -> In keyword (gstr g) -> toLowerCase keyword <> "".

Local Abbreviation scan := (scanKeywordSets toLowerCase).
Local Abbreviation suggest := (suggestColumnMappings toLowerCase).
Local Abbreviation rowOf :=
  (fun kv : string * string =>
     {| gstr2b := fst kv; pr := snd kv;
        isKey := isLikelyKeyField (toLowerCase (fst kv)) |}).

Lemma scan_truthy lower targets sets t :
  scan lower targets sets = Some t -> truthy t = true.
Proof.
  induction sets as [|g sets IH]; cbn [scanKeywordSets]; [discriminate|].
  destruct (containsKeyword toLowerCase lower (gstr g)); [|exact IH].
  destruct (findPrHeader toLowerCase targets g) as [t0|]; [|exact IH].
  destruct (truthy t0) eqn:Ht; [|exact IH]. now intros [= <-].
Qed.

Lemma scan_source_truthy h targets sets t :
  (forall g, In g sets -> In g commonKeywords) ->
  scan (toLowerCase h) targets sets = Some t -> truthy h = true.
Proof.
  induction sets as [|g sets IH]; intros Hsub; cbn [scanKeywordSets];
    [discriminate|].
  assert (forall g', In g' sets -> In g' commonKeywords) as Hsub'
    by (intros g' Hg'; apply Hsub; now right).
  destruct (containsKeyword toLowerCase (toLowerCase h) (gstr g)) eqn:Hc;
    [|exact (IH Hsub')].
  intros _. apply containsKeyword_mentions in Hc as (kw & Hkw & a & b & Hocc).
  destruct h as [|c h]; [exfalso|reflexivity].
  rewrite lower_empty in Hocc.
  apply (source_keywords_not_empty g kw (Hsub g (or_introl eq_refl)) Hkw).
  destruct a as [|x a]; [|rewrite append_cons in Hocc; discriminate].
  rewrite append_empty in Hocc.
  destruct (toLowerCase kw); [reflexivity|].
  rewrite append_cons in Hocc. discriminate.
Qed.

Lemma suggested_pair_truthy sources targets h t :
  getOwn (suggest sources targets) h = Some t ->
  truthy h = true /\ truthy t = true.
Proof.
  intros Hget.
  apply (suggest_fold toLowerCase targets h t sources []) in Hget
    as [[_ Hscan]|[_ [=]]].
  split.
  - exact (scan_source_truthy h targets commonKeywords t (fun g Hg => Hg) Hscan).
  - exact (scan_truthy _ _ _ _ Hscan).
Qed.

(** The rows set by the effect: one per suggested pair, then at most one
    row for a likely key column found among the headers when no suggested
    row is a key. *)
Lemma suggested_rows_shape sources targets rows :
  suggestOnHeaders toLowerCase sources targets = Some rows ->
  exists extra,
    rows = map rowOf (suggest sources targets) ++ extra /\
    (extra = [] \/
     exists column target,
       extra = [{| gstr2b := column; pr := target; isKey := true |}] /\
       truthy column = true /\ truthy target = true /\
       isLikelyKeyField (toLowerCase column) = true /\
       existsb isKey (map rowOf (suggest sources targets)) = false).
Proof.
  unfold suggestOnHeaders, Object_entries.
  destruct ((0 <? length sources)%nat && (0 <? length targets)%nat);
    [|discriminate].
  destruct (existsb isKey (map rowOf (suggest sources targets))) eqn:Hkeys;
    cbn [negb].
  - intros [= <-]. exists []. rewrite app_nil_r. auto.
  - destruct (List.find _ sources) as [column|] eqn:Hcol.
    2: { intros [= <-]. exists []. rewrite app_nil_r. auto. }
    apply find_some in Hcol as [_ Hlikely].
    destruct (truthy column) eqn:Hc.
    2: { intros [= <-]. exists []. rewrite app_nil_r. auto. }
    destruct (List.find _ targets) as [target|].
    2: { intros [= <-]. exists []. rewrite app_nil_r. auto. }
    destruct (truthy target) eqn:Ht.
    2: { intros [= <-]. exists []. rewrite app_nil_r. auto. }
    intros [= <-]. eexists. split; [reflexivity|]. right.
    exists column, target. auto.
Qed.

(** X21. After the headers change, what the editor hands to its parent is
    consistent: every key field is a property of the mapping object, and
    the mapping object contains every suggested pair unchanged. *)
Theorem auto_suggestion_is_consistent sources targets rows :
  suggestOnHeaders toLowerCase sources targets = Some rows ->
  (forall k, In k (keyFieldsOf rows) ->
             exists v, getOwn (mappingObject rows) k = Some v) /\
  (forall h t, getOwn (suggest sources targets) h = Some t ->
               getOwn (mappingObject rows) h = Some t).
Proof.
  intros Hrows.
  destruct (suggested_rows_shape _ _ _ Hrows) as (extra & -> & Hextra).
  pose proof (suggest_invariant toLowerCase targets sources []
                (List.NoDup_nil _)) as (Hnd & _ & _).
  fold (suggest sources targets) in Hnd.
  assert (forall m, In m (map rowOf (suggest sources targets) ++ extra) ->
                    truthy (pr m) = true) as Htargets.
  { intros m Hm. apply in_app_or in Hm as [Hm|Hm].
    - apply in_map_iff in Hm as ([h t] & <- & Hin). cbn.
      exact (proj2 (suggested_pair_truthy _ _ _ _ (In_getOwn _ _ _ Hnd Hin))).
    - destruct Hextra as [->|(column & target & -> & _ & Ht & _)];
        [contradiction|].
      destruct Hm as [<-|[]]. exact Ht. }
  split.
  - intros k Hk. apply keyFieldsOf_In in Hk as (m & Hm & Hmk & _ & Htk).
    apply mapped_if_some_target; [exact Htk|].
    exists m. split; [exact Hm|]. split; [exact Hmk|]. now apply Htargets.
  - intros h t Hget.
    destruct (suggested_pair_truthy _ _ _ _ Hget) as [Hh Ht].
    destruct (getOwn_split _ _ _ Hnd Hget) as (d1 & d2 & Hsplit & Hd2).
    apply mappingObject_lookup.
    exists (map rowOf d1), (rowOf (h, t)), (map rowOf d2 ++ extra).
    split; [rewrite Hsplit, map_app, <- app_assoc; reflexivity|].
    repeat split; try assumption.
    intros m' Hm' Hcol. exfalso.
    apply in_app_or in Hm' as [Hm'|Hm'].
    + apply in_map_iff in Hm' as ([h' t'] & <- & Hin'). cbn in Hcol. subst h'.
      apply Hd2. change h with (fst (h, t')). now apply in_map.
    + destruct Hextra as [->|(column & target & -> & _ & _ & Hlikely & Hnokey)];
        [contradiction|].
      destruct Hm' as [<-|[]]. cbn in Hcol. subst column.
      assert (existsb isKey (map rowOf (suggest sources targets)) = true) as Hyes.
      { apply existsb_exists. exists (rowOf (h, t)). split; [|exact Hlikely].
        rewrite Hsplit, map_app. apply in_or_app. right. now left. }
      congruence.
Qed.

End AutoSuggestFacts.

(** * The further properties on concrete data *)

Lemma lowerCase_nonempty s : s <> "" -> Host.lowerCase s <> "".
Proof. destruct s; [congruence|discriminate]. Qed.

Lemma keywords_nonempty g keyword :
  In g commonKeywords -> In keyword (gstr g) \/ In keyword (pr g) ->
  keyword <> "".
Proof.
  intros Hg Hin. destruct keyword; [|discriminate].
  cbn in Hg.
  repeat (destruct Hg as [<-|Hg];
          [cbn in Hin; destruct Hin as [Hin|Hin];
           repeat (destruct Hin as [Hin|Hin]; [discriminate Hin|]);
           destruct Hin|]).
  destruct Hg.
Qed.

Lemma target_side_exact_witness :
  let r := Host.reconcile [Scenario.twin 1]
             [Scenario.ledgerRow; Scenario.ledgerRow1200] Scenario.sameNames in
  let tgt := [Scenario.ledgerRow; Scenario.ledgerRow1200] in
  let position p := indexOf tgt (purchaseRegister p) in
  List.NoDup (map position (common r)) /\
  (forall p, In p (common r) -> (0 <= position p < Z.of_nat (length tgt))%Z) /\
  length (common r) + length (lessInGstr2b r) = length tgt.
Proof.
  cbn zeta.
  assert (List.NoDup
            (map (fun p => indexOf [Scenario.ledgerRow; Scenario.ledgerRow1200]
                             (purchaseRegister p))
               (common (Host.reconcile [Scenario.twin 1]
                          [Scenario.ledgerRow; Scenario.ledgerRow1200]
                          Scenario.sameNames)))) as Hnd.
  { vm_compute. constructor; [intros []|constructor]. }
  assert (forall p,
             In p (common (Host.reconcile [Scenario.twin 1]
                             [Scenario.ledgerRow; Scenario.ledgerRow1200]
                             Scenario.sameNames)) ->
             (0 <= indexOf [Scenario.ledgerRow; Scenario.ledgerRow1200]
                     (purchaseRegister p)
              < Z.of_nat (length [Scenario.ledgerRow; Scenario.ledgerRow1200]))%Z)
    as Hrange.
  { intros p Hp. vm_compute in Hp. destruct Hp as [<-|[]].
    vm_compute. split; [discriminate|reflexivity]. }
  split; [exact Hnd|]. split; [exact Hrange|].
  exact (target_side_exact Host.showNumber Host.showDate Host.exactSearch
           [Scenario.twin 1] [Scenario.ledgerRow; Scenario.ledgerRow1200]
           Scenario.sameNames Hnd Hrange).
Defined.

Lemma counterpart_not_left_over_witness :
  let tgt := [Scenario.ledgerRow; Scenario.ledgerRow1200] in
  let r := Host.reconcile [Scenario.twin 1] tgt Scenario.sameNames in
  List.NoDup (map oid tgt) /\
  forall p row,
    In p (common r) -> In row (lessInGstr2b r) ->
    oid row <> oid (purchaseRegister p).
Proof.
  cbn zeta.
  assert (List.NoDup (map oid [Scenario.ledgerRow; Scenario.ledgerRow1200]))
    as Hnd.
  { cbn. constructor; [intros [H|[]]; discriminate H|].
    constructor; [intros []|constructor]. }
  split; [exact Hnd|].
  exact (counterpart_not_left_over Host.showNumber Host.showDate Host.exactSearch
           [Scenario.twin 1] [Scenario.ledgerRow; Scenario.ledgerRow1200]
           Scenario.sameNames Hnd).
Defined.

Lemma mismatches_follow_mapping_order_witness :
  let p := {| gstr2b := Scenario.twin 1;
              purchaseRegister := Scenario.ledgerRow1200;
              mismatches := [{| field := "amount";
                                gstr2bValue := VNumber 1000%float;
                                purchaseRegisterValue := VNumber 1200%float |}] |} in
  In p (common (Host.reconcile [Scenario.twin 1] [Scenario.ledgerRow1200]
                  Scenario.sameNames)) /\
  sublist (map field (mismatches p)) (map fst (mappedFields Scenario.sameNames)).
Proof.
  cbn zeta.
  pose proof (or_introl eq_refl
              : In {| gstr2b := Scenario.twin 1;
                      purchaseRegister := Scenario.ledgerRow1200;
                      mismatches := [{| field := "amount";
                                gstr2bValue := VNumber 1000%float;
                                purchaseRegisterValue := VNumber 1200%float |}] |}
                  (common (Host.reconcile [Scenario.twin 1]
                             [Scenario.ledgerRow1200] Scenario.sameNames)))
    as Hp.
  split; [exact Hp|].
  exact (mismatches_follow_mapping_order Host.showNumber Host.showDate
           Host.exactSearch _ _ _ _ Hp).
Defined.

Lemma badge_matched_iff_fields_agree_witness :
  let p := {| gstr2b := Scenario.twin 1;
              purchaseRegister := Scenario.ledgerRow;
              mismatches := [] |} in
  In p (common (Host.reconcile [Scenario.twin 1] [Scenario.ledgerRow]
                  Scenario.sameNames)) /\
  (statusBadge p = "Matched" <->
   forall f g, In (f, g) (Object_entries (mappedFields Scenario.sameNames)) ->
               ~ In f (keyFields Scenario.sameNames) ->
               valuesDiffer Host.showNumber Host.showDate
                 (get (gstr2b p) f) (get (purchaseRegister p) g) = false) /\
  (statusBadge p = "Matched" \/ statusBadge p = "Mismatch").
Proof.
  cbn zeta.
  pose proof (or_introl eq_refl
              : In {| gstr2b := Scenario.twin 1;
                      purchaseRegister := Scenario.ledgerRow;
                      mismatches := [] |}
                  (common (Host.reconcile [Scenario.twin 1]
                             [Scenario.ledgerRow] Scenario.sameNames)))
    as Hp.
  split; [exact Hp|].
  exact (badge_matched_iff_fields_agree Host.showNumber Host.showDate
           Host.exactSearch _ _ _ _ Hp).
Defined.

Lemma only_key_fields_mapped_witness :
  let options := {| matchingThreshold := 90%float;
                    keyFields := ["invoice"];
                    mappedFields := [("invoice", "invoice")] |} in
  let r := Host.reconcile [Scenario.twin 1] [Scenario.ledgerRow1200] options in
  (forall f g, In (f, g) (Object_entries (mappedFields options)) ->
               In f (keyFields options)) /\
  Forall (fun p => mismatches p = []) (common r) /\
  getTotalMismatchCount (common r) = 0.
Proof.
  cbn zeta.
  assert (forall f g,
             In (f, g) [("invoice", "invoice")] -> In f ["invoice"]) as Hkeys.
  { intros f g [[= <- <-]|[]]. now left. }
  split; [exact Hkeys|].
  exact (only_key_fields_mapped Host.showNumber Host.showDate Host.exactSearch
           [Scenario.twin 1] [Scenario.ledgerRow1200]
           {| matchingThreshold := 90%float; keyFields := ["invoice"];
              mappedFields := [("invoice", "invoice")] |} Hkeys).
Defined.

Lemma export_row_lookup_witness :
  let p := {| gstr2b := Scenario.twin 1;
              purchaseRegister := Scenario.ledgerRow1200;
              mismatches := [] |} in
  let row := combinedRow Host.showNumber Host.showDate p in
  List.NoDup (map fst (props (gstr2b p))) /\
  List.NoDup (map fst (props (purchaseRegister p))) /\
  (forall k, getOwn row ("GSTR-2B: " +:+ k) = getOwn (props (gstr2b p)) k) /\
  (forall k, getOwn row ("PR: " +:+ k) = getOwn (props (purchaseRegister p)) k) /\
  getOwn row "Mismatch Summary"
  = Some (VString (exportSummary Host.showNumber Host.showDate p)).
Proof.
  cbn zeta.
  assert (List.NoDup ["invoice"; "amount"]) as Hnd.
  { constructor; [intros [H|[]]; discriminate H|].
    constructor; [intros []|constructor]. }
  split; [exact Hnd|]. split; [exact Hnd|].
  exact (export_row_lookup Host.showNumber Host.showDate
           {| gstr2b := Scenario.twin 1;
              purchaseRegister := Scenario.ledgerRow1200;
              mismatches := [] |} Hnd Hnd).
Defined.

Lemma gst_header_takes_first_gst_target_witness :
  Host.lowerCase "" = "" /\
  (forall g keyword,
      In g commonKeywords -> In keyword (pr g) -> Host.lowerCase keyword <> "") /\
  In "IGST" ["IGST"; "CGST"] /\
  occursIn (Host.lowerCase "gst") (Host.lowerCase "IGST") /\
  firstSuch (fun t => mentions Host.lowerCase t ["gstin"; "gst"])
    ["GSTIN"; "IGST"; "CGST"] "GSTIN" /\
  getOwn (suggestColumnMappings Host.lowerCase ["IGST"; "CGST"]
            ["GSTIN"; "IGST"; "CGST"]) "IGST" = Some "GSTIN".
Proof.
  assert (forall g keyword,
             In g commonKeywords -> In keyword (pr g) ->
             Host.lowerCase keyword <> "") as Hkw.
  { intros g kw Hg Hin. apply lowerCase_nonempty.
    apply (keywords_nonempty g kw Hg). now right. }
  assert (occursIn (Host.lowerCase "gst") (Host.lowerCase "IGST")) as Hocc
    by now exists "i", "".
  assert (firstSuch (fun t => mentions Host.lowerCase t ["gstin"; "gst"])
            ["GSTIN"; "IGST"; "CGST"] "GSTIN") as Hfirst.
  { exists [], ["IGST"; "CGST"]. split; [reflexivity|]. split; [|intros y []].
    exists "gstin". split; [now left|]. now exists "", "". }
  split; [reflexivity|]. split; [exact Hkw|]. split; [now left|].
  split; [exact Hocc|]. split; [exact Hfirst|].
  exact (gst_header_takes_first_gst_target Host.lowerCase eq_refl Hkw
           ["IGST"; "CGST"] ["GSTIN"; "IGST"; "CGST"] "IGST" "GSTIN"
           (or_introl eq_refl) Hocc Hfirst).
Defined.

Lemma key_field_covered_iff_target_witness :
  let ms := [ColumnMapping.mkMapping "Invoice No" "" true;
             ColumnMapping.mkMapping "Amount" "Total" false] in
  In "Invoice No" (ColumnMapping.keyFieldsOf ms) /\
  "Invoice No" <> "" /\
  ((exists v, getOwn (ColumnMapping.mappingObject ms) "Invoice No" = Some v) <->
   exists m, In m ms /\ ColumnMapping.gstr2b m = "Invoice No" /\
             ColumnMapping.pr m <> "").
Proof.
  cbn zeta.
  pose proof (or_introl eq_refl
              : In "Invoice No"
                  (ColumnMapping.keyFieldsOf
                     [ColumnMapping.mkMapping "Invoice No" "" true;
                      ColumnMapping.mkMapping "Amount" "Total" false])) as Hk.
  split; [exact Hk|].
  exact (key_field_covered_iff_target _ _ Hk).
Defined.

Lemma auto_suggestion_is_consistent_witness :
  let sources := ["Amount"; "Bill Ref"] in
  let targets := ["Total"; "my bill ref here"] in
  let rows := [ColumnMapping.mkMapping "Amount" "Total" false;
               ColumnMapping.mkMapping "Bill Ref" "my bill ref here" true] in
  Host.lowerCase "" = "" /\
  (forall g keyword,
      In g commonKeywords -> In keyword (gstr g) ->
      Host.lowerCase keyword <> "") /\
  ColumnMapping.suggestOnHeaders Host.lowerCase sources targets = Some rows /\
  (forall k, In k (ColumnMapping.keyFieldsOf rows) ->
             exists v, getOwn (ColumnMapping.mappingObject rows) k = Some v) /\
  (forall h t,
      getOwn (suggestColumnMappings Host.lowerCase sources targets) h = Some t ->
      getOwn (ColumnMapping.mappingObject rows) h = Some t).
Proof.
  cbn zeta.
  assert (forall g keyword,
             In g commonKeywords -> In keyword (gstr g) ->
             Host.lowerCase keyword <> "") as Hkw.
  { intros g kw Hg Hin. apply lowerCase_nonempty.
    apply (keywords_nonempty g kw Hg). now left. }
  split; [reflexivity|]. split; [exact Hkw|]. split; [reflexivity|].
  exact (auto_suggestion_is_consistent Host.lowerCase eq_refl Hkw
           ["Amount"; "Bill Ref"] ["Total"; "my bill ref here"] _ eq_refl).
Defined.

(** * Matching looks at the key fields only *)

Lemma fold_left_agree {A B : Type} (f g : A -> B -> A) (l : list B) :
  (forall a b, In b l -> f a b = g a b) ->
  forall a, fold_left f l a = fold_left g l a.
Proof.
  induction l as [|b l IH]; intros Hfg a; cbn; [reflexivity|].
  rewrite (Hfg a b (or_introl eq_refl)). apply IH.
  intros a' b' Hb'. apply Hfg. now right.
Qed.

Section KeyCells.

Variable numberToString : float -> string.
Variable dateToString : float -> string.
Variable search : FuseSearch.

Local Abbreviation run := (performReconciliation numberToString dateToString search).

Lemma pattern_of_key_cells options e1 e2 :
  (forall k, In k (keyFields options) -> get e1 k = get e2 k) ->
  searchPattern numberToString dateToString options e1
  = searchPattern numberToString dateToString options e2.
Proof.
  intros Hkeys. unfold searchPattern. apply fold_left_agree.
  intros p k Hk. now rewrite (Hkeys k Hk).
Qed.

(** X22. Two source records with the same cells under the key fields are
    treated alike, whatever their other cells: one is left over in
    [moreInGstr2b] iff the other is, and when both are paired it is with
    the same target record. *)
Theorem key_cells_decide src tgt options e1 e2 :
  (forall k, In k (keyFields options) -> get e1 k = get e2 k) ->
  In e1 src -> In e2 src ->
  let r := run src tgt options in
  (In e1 (moreInGstr2b r) <-> In e2 (moreInGstr2b r)) /\
  (forall p1 p2, In p1 (common r) -> In p2 (common r) ->
                 gstr2b p1 = e1 -> gstr2b p2 = e2 ->
                 purchaseRegister p1 = purchaseRegister p2).
Proof.
  intros Hkeys H1 H2. cbn zeta. rewrite run_closed_form.
  cbn [common moreInGstr2b].
  pose proof (pattern_of_key_cells options e1 e2 Hkeys) as Hpat.
  split.
  - rewrite !filter_In. unfold paired, matchFor. rewrite Hpat.
    destruct (search _ _ _) as [|first rest]; [tauto|].
    destruct (js_le _ _); cbn; tauto.
  - intros p1 p2 Hp1 Hp2 <- <-.
    apply pairsOf_inv in Hp1 as [_ Hp1]. apply pairsOf_inv in Hp2 as [_ Hp2].
    revert Hp1 Hp2. unfold matchFor. rewrite Hpat.
    destruct (search _ _ _) as [|first rest]; [discriminate|].
    destruct (js_le _ _); [|discriminate].
    intros Hp1 Hp2. injection Hp1 as Hp1. injection Hp2 as Hp2.
    now rewrite <- Hp1, <- Hp2.
Qed.

End KeyCells.

(** * The file-name test *)


Lemma key_cells_decide_witness :
  let src := [Scenario.twin 1; Scenario.twin 2] in
  let r := Host.reconcile src [Scenario.ledgerRow] Scenario.sameNames in
  (forall k, In k (keyFields Scenario.sameNames) ->
             get (Scenario.twin 1) k = get (Scenario.twin 2) k) /\
  In (Scenario.twin 1) src /\ In (Scenario.twin 2) src /\
  (In (Scenario.twin 1) (moreInGstr2b r) <-> In (Scenario.twin 2) (moreInGstr2b r)) /\
  (forall p1 p2, In p1 (common r) -> In p2 (common r) ->
                 gstr2b p1 = Scenario.twin 1 -> gstr2b p2 = Scenario.twin 2 ->
                 purchaseRegister p1 = purchaseRegister p2).
Proof.
  cbn zeta.
  assert (forall k, In k (keyFields Scenario.sameNames) ->
                    get (Scenario.twin 1) k = get (Scenario.twin 2) k) as Hkeys.
  { intros k [<-|[]]. reflexivity. }
  pose proof (or_introl eq_refl
              : In (Scenario.twin 1) [Scenario.twin 1; Scenario.twin 2]) as H1.
  pose proof (or_intror (or_introl eq_refl)
              : In (Scenario.twin 2) [Scenario.twin 1; Scenario.twin 2]) as H2.
  split; [exact Hkeys|]. split; [exact H1|]. split; [exact H2|].
  exact (key_cells_decide Host.showNumber Host.showDate Host.exactSearch
           [Scenario.twin 1; Scenario.twin 2] [Scenario.ledgerRow]
           Scenario.sameNames (Scenario.twin 1) (Scenario.twin 2) Hkeys H1 H2).
Defined.

Lemma empty_datasets_witness :
  (forall o q, Host.exactSearch o [] q = []) /\
  Host.reconcile [Scenario.twin 1; Scenario.twin 2] [] Scenario.sameNames
  = {| common := [];
       moreInGstr2b := [Scenario.twin 1; Scenario.twin 2];
       lessInGstr2b := [] |}.
Proof.
  assert (forall o q, Host.exactSearch o [] q = []) as Hnone
    by (intros o q; reflexivity).
  split; [exact Hnone|].
  exact (proj2 (empty_datasets Host.showNumber Host.showDate Host.exactSearch)
           Hnone [Scenario.twin 1; Scenario.twin 2] Scenario.sameNames).
Defined.
